(** * Passport renewal calculator and compliance template composer

    A shallow embedding of [app.py]: the date arithmetic of the passport
    tool ([safe_add_years], [current_passport_stage], [compute_status],
    [validate_inputs]) and the text assembly of the compliance tool
    ([sort_by_priority], [render_middle_adaptive], [js_escape]).

    Python values are represented as follows.
    - [int] is [Z]; [date] is a record of three [Z] fields, and a date
      object that exists at run time satisfies [valid_date].
    - [str] is [string]; non-ASCII text is carried in its UTF-8 encoding.
      Every pattern the code searches for is ASCII, so searching the
      encoding finds the same occurrences.
    - a raised exception is the [Raise] branch of [result]. *)

From Stdlib Require Import ZArith List Bool String Ascii Lia.
Import ListNotations.
Open Scope Z_scope.

(** ** Exceptions *)

Inductive exn : Type := ValueError | OverflowError | KeyError.

Inductive result (A : Type) : Type :=
| Ok (a : A)
| Raise (e : exn).
Arguments Ok {A} a.
Arguments Raise {A} e.

Definition bind {A B : Type} (c : result A) (k : A -> result B) : result B :=
  match c with
  | Ok a => k a
  | Raise e => Raise e
  end.

Notation "x <- c ;; k" := (bind c (fun x => k))
  (at level 61, c at next level, right associativity).

(** [try: c  except ValueError: h] *)
Definition try_except_ValueError {A : Type} (c h : result A) : result A :=
  match c with
  | Raise ValueError => h
  | other => other
  end.

Definition returns {A : Type} (c : result A) : Prop := exists a, c = Ok a.

(** ** [datetime.date] *)

Module PyDate.

Record date : Type := mkdate { year : Z; month : Z; day : Z }.

Definition MINYEAR : Z := 1.
Definition MAXYEAR : Z := 9999.

Definition DAYS_IN_MONTH : list Z :=
  [-1; 31; 28; 31; 30; 31; 30; 31; 31; 30; 31; 30; 31].

Definition DAYS_BEFORE_MONTH : list Z :=
  [-1; 0; 31; 59; 90; 120; 151; 181; 212; 243; 273; 304; 334].

(** [l[i]] for an index inside the list; the month tables are only read
    at months 1..12. *)
Definition index (l : list Z) (i : Z) : Z := nth (Z.to_nat i) l 0.

Definition is_leap (y : Z) : bool :=
  (y mod 4 =? 0) && (negb (y mod 100 =? 0) || (y mod 400 =? 0)).

Definition days_before_year (y : Z) : Z :=
  let y := y - 1 in
  y * 365 + y / 4 - y / 100 + y / 400.

Definition days_in_month (y m : Z) : Z :=
  if (m =? 2) && is_leap y then 29 else index DAYS_IN_MONTH m.

Definition days_before_month (y m : Z) : Z :=
  index DAYS_BEFORE_MONTH m + (if (2 <? m) && is_leap y then 1 else 0).

Definition ymd2ord (y m d : Z) : Z :=
  days_before_year y + days_before_month y m + d.

Definition DI400Y : Z := 146097.
Definition DI100Y : Z := 36524.
Definition DI4Y : Z := 1461.
Definition MAXORDINAL : Z := 3652059.

Definition ord2ymd (n : Z) : Z * Z * Z :=
  let n := n - 1 in
  let n400 := n / DI400Y in
  let n := n mod DI400Y in
  let year := n400 * 400 + 1 in
  let n100 := n / DI100Y in
  let n := n mod DI100Y in
  let n4 := n / DI4Y in
  let n := n mod DI4Y in
  let n1 := n / 365 in
  let n := n mod 365 in
  let year := year + (n100 * 100 + n4 * 4 + n1) in
  if (n1 =? 4) || (n100 =? 4) then (year - 1, 12, 31)
  else
    let leapyear := (n1 =? 3) && (negb (n4 =? 24) || (n100 =? 3)) in
    let month := Z.shiftr (n + 50) 5 in
    let preceding :=
      index DAYS_BEFORE_MONTH month
      + (if (2 <? month) && leapyear then 1 else 0) in
    let '(month, preceding) :=
      if n <? preceding then
        (month - 1,
         preceding - (index DAYS_IN_MONTH (month - 1)
                      + (if (month - 1 =? 2) && leapyear then 1 else 0)))
      else (month, preceding) in
    (year, month, n - preceding + 1).

(** The field check run by the constructor [date(year, month, day)]. *)
Definition check_date_fields (y m d : Z) : result date :=
  if negb ((MINYEAR <=? y) && (y <=? MAXYEAR)) then Raise ValueError
  else if negb ((1 <=? m) && (m <=? 12)) then Raise ValueError
  else if negb ((1 <=? d) && (d <=? days_in_month y m)) then Raise ValueError
  else Ok (mkdate y m d).

Definition valid_date (d : date) : Prop :=
  MINYEAR <= year d <= MAXYEAR /\ 1 <= month d <= 12 /\
  1 <= day d <= days_in_month (year d) (month d).

Definition from_option (o : option Z) (dflt : Z) : Z :=
  match o with Some v => v | None => dflt end.

(** The range of a C int, in which the keyword values of [replace] are
    passed. *)
Definition C_INT_MIN : Z := -2147483648.
Definition C_INT_MAX : Z := 2147483647.

(** [d.replace(year=.., month=.., day=..)]; an omitted keyword is [None].
    The model is for keyword values within the range of a C int, as the
    year of a date plus 14, 20 or 45 is. *)
Definition replace (d : date) (y m dd : option Z) : result date :=
  check_date_fields (from_option y (year d)) (from_option m (month d))
                    (from_option dd (day d)).

Definition toordinal (d : date) : Z := ymd2ord (year d) (month d) (day d).

Definition fromordinal (n : Z) : result date :=
  let '(y, m, d) := ord2ymd n in check_date_fields y m d.

(** [d + timedelta(days=n)] *)
Definition add_days (d : date) (n : Z) : result date :=
  let o := toordinal d + n in
  if (0 <? o) && (o <=? MAXORDINAL) then fromordinal o
  else Raise OverflowError.

(** [(a - b).days] *)
Definition sub_days (a b : date) : Z := toordinal a - toordinal b.

(** Dates compare as the tuples (year, month, day). *)
Definition cmp (a b : date) : comparison :=
  match year a ?= year b with
  | Eq => match month a ?= month b with
          | Eq => day a ?= day b
          | c => c
          end
  | c => c
  end.

Definition lt (a b : date) : bool :=
  match cmp a b with Lt => true | _ => false end.
Definition le (a b : date) : bool :=
  match cmp a b with Gt => false | _ => true end.
Definition gt (a b : date) : bool :=
  match cmp a b with Gt => true | _ => false end.
Definition ge (a b : date) : bool :=
  match cmp a b with Lt => false | _ => true end.

(** The order of the tuples, as a proposition. *)
Definition before (a b : date) : Prop :=
  year a < year b \/
  (year a = year b /\
   (month a < month b \/ (month a = month b /\ day a < day b))).

End PyDate.

Import PyDate.

(** ** [str] *)

Module PyStr.

Local Open Scope string_scope.

Definition nl : string := String "010" EmptyString.
Definition cr : string := String "013" EmptyString.
Definition backslash : string := String "092" EmptyString.
Definition backtick : string := String "096" EmptyString.

(** [c.isspace()] on the ASCII range. *)
Definition isspace (c : ascii) : bool :=
  let n := nat_of_ascii c in
  (((9 <=? n) && (n <=? 13)) || ((28 <=? n) && (n <=? 32)))%nat.

Fixpoint lstrip (s : string) : string :=
  match s with
  | EmptyString => EmptyString
  | String c s' => if isspace c then lstrip s' else s
  end.

Fixpoint rstrip (s : string) : string :=
  match s with
  | EmptyString => EmptyString
  | String c s' =>
      match rstrip s' with
      | EmptyString => if isspace c then EmptyString else String c EmptyString
      | r => String c r
      end
  end.

(** [s.strip()] *)
Definition strip (s : string) : string := rstrip (lstrip s).

(** [sep.join(parts)] *)
Definition join (sep : string) (parts : list string) : string :=
  String.concat sep parts.

(** The scan of [s.replace(old, new)] for a non-empty [old]: occurrences
    are taken left to right and do not overlap; [skip] counts the
    characters of the occurrence just replaced that are still ahead. *)
Fixpoint replace_from (old new : string) (skip : nat) (s : string) : string :=
  match s with
  | EmptyString => EmptyString
  | String c s' =>
      match skip with
      | S k => replace_from old new k s'
      | O =>
          if prefix old s
          then new ++ replace_from old new (String.length old - 1) s'
          else String c (replace_from old new 0 s')
      end
  end.

Fixpoint intersperse (new s : string) : string :=
  match s with
  | EmptyString => new
  | String c s' => new ++ String c (intersperse new s')
  end.

(** [s.replace(old, new)] *)
Definition replace (s old new : string) : string :=
  match old with
  | EmptyString => intersperse new s
  | _ => replace_from old new 0 s
  end.

(** Replace every character [c] of [s] by the string [f c]. *)
Fixpoint map_chars (f : ascii -> string) (s : string) : string :=
  match s with
  | EmptyString => EmptyString
  | String c s' => f c ++ map_chars f s'
  end.

(** The character [a] occurs in [s]. *)
Fixpoint occurs (a : ascii) (s : string) : bool :=
  match s with
  | EmptyString => false
  | String c s' => Ascii.eqb a c || occurs a s'
  end.

(** The first and the last character of [s], when there is one. *)
Definition first_char (s : string) : option ascii :=
  match s with
  | EmptyString => None
  | String c _ => Some c
  end.

Fixpoint last_char (s : string) : option ascii :=
  match s with
  | EmptyString => None
  | String c EmptyString => Some c
  | String _ s' => last_char s'
  end.

(** Every character of [s] satisfies [p]. *)
Fixpoint all_chars (p : ascii -> bool) (s : string) : bool :=
  match s with
  | EmptyString => true
  | String c s' => p c && all_chars p s'
  end.

(** [k in keys] for a list of strings. *)
Definition contains (keys : list string) (k : string) : bool :=
  existsb (String.eqb k) keys.

(** A [dict] with string keys, in insertion order. *)
Definition dict (V : Type) : Type := list (string * V).

Fixpoint lookup {V : Type} (d : dict V) (k : string) : option V :=
  match d with
  | [] => None
  | (k', v) :: d' => if String.eqb k k' then Some v else lookup d' k
  end.

(** [d[k]] *)
Definition getitem {V : Type} (d : dict V) (k : string) : result V :=
  match lookup d k with
  | Some v => Ok v
  | None => Raise KeyError
  end.

(** [d.get(k, dflt)] *)
Definition get {V : Type} (d : dict V) (k : string) (dflt : V) : V :=
  match lookup d k with
  | Some v => v
  | None => dflt
  end.

Definition keys {V : Type} (d : dict V) : list string := map fst d.

Definition digit (n : Z) : string :=
  String (ascii_of_nat (48 + Z.to_nat (n mod 10))) EmptyString.

(** [d.strftime('%d.%m.%Y')], for the four-digit years 1000..9999. *)
Definition strftime_dmy (d : date) : string :=
  digit (day d / 10) ++ digit (day d) ++ "." ++
  digit (month d / 10) ++ digit (month d) ++ "." ++
  digit (year d / 1000) ++ digit (year d / 100) ++
  digit (year d / 10) ++ digit (year d).

End PyStr.

Import PyStr.

(** ** 1) Passport tool *)

Module Passport.

Local Open Scope string_scope.

Definition MIN_BIRTH : date := mkdate 1900 1 1.
Definition MIN_ISSUE : date := mkdate 1900 1 1.

Definition safe_add_years (d : date) (years : Z) : result date :=
  try_except_ValueError
    (PyDate.replace d (Some (year d + years)) None None)
    (PyDate.replace d (Some (year d + years)) (Some 2) (Some 28)).

(** [stage == n] for [stage : int | None]. *)
Definition stage_eqb (stage : option Z) (n : Z) : bool :=
  match stage with
  | Some k => (k =? n)%Z
  | None => false
  end.

Definition current_passport_stage (birth issue : date) : result (option Z) :=
  d14 <- safe_add_years birth 14 ;;
  d20 <- safe_add_years birth 20 ;;
  d45 <- safe_add_years birth 45 ;;
  if ge issue d45 then Ok (Some 45)
  else if le d20 issue && lt issue d45 then Ok (Some 20)
  else if le d14 issue && lt issue d20 then Ok (Some 14)
  else Ok None.

(** The order Unknown < 14 < 20 < 45 on stages. *)
Definition stage_rank (stage : option Z) : Z :=
  match stage with
  | Some n => n
  | None => 0
  end.

Definition classify_passport_stage_text (stage : option Z) : string :=
  if stage_eqb stage 14 then "Первичное получение в 14 лет"
  else if stage_eqb stage 20 then "Обмен в 20 лет"
  else if stage_eqb stage 45 then "Обмен в 45 лет"
  else "Не удалось однозначно определить (проверьте ввод)".

(** The dictionary returned by [compute_status]. *)
Record status : Type := mkstatus {
  stage_label : string;
  next_change : option date;
  deadline : option date;
  status_kind : string;
  days_left : option Z
}.

Definition compute_status (birth issue today : date) : result status :=
  d20 <- safe_add_years birth 20 ;;
  d45 <- safe_add_years birth 45 ;;
  stage <- current_passport_stage birth issue ;;
  let stage_label := classify_passport_stage_text stage in
  let age_next_change :=
    if lt today d20 then Some d20
    else if lt today d45 then Some d45
    else None in
  if stage_eqb stage 45 then
    Ok (mkstatus stage_label None None "no_more" None)
  else
    let next_change :=
      if stage_eqb stage 20 then Some d45
      else if stage_eqb stage 14 then Some d20
      else age_next_change in
    match next_change with
    | None => Ok (mkstatus stage_label None None "no_more" None)
    | Some next_change =>
        deadline <- add_days next_change 90 ;;
        let '(status_kind, days_left) :=
          if gt today deadline then ("invalid", None)
          else if ge today next_change then
            ("due", Some (sub_days deadline today))
          else ("ok", Some (sub_days next_change today)) in
        Ok (mkstatus stage_label (Some next_change) (Some deadline)
                     status_kind days_left)
    end.

Definition err_birth_future : string :=
  "Дата рождения не может быть в будущем.".
Definition err_issue_future : string :=
  "Дата выдачи паспорта не может быть в будущем.".
Definition err_issue_before_birth : string :=
  "Дата выдачи паспорта не может быть раньше даты рождения.".
Definition err_under_14 : string :=
  "Лицу младше 14 лет паспорт ещё не выдается.".
Definition err_issue_before_14 : string :=
  "Паспорт не может быть выдан ранее достижения 14 лет. Проверьте дату выдачи.".
Definition err_birth_range (lo hi : date) : string :=
  "Дата рождения должна быть в диапазоне " ++
  strftime_dmy lo ++ "–" ++ strftime_dmy hi ++ ".".
Definition err_issue_range (lo hi : date) : string :=
  "Дата выдачи должна быть в диапазоне " ++
  strftime_dmy lo ++ "–" ++ strftime_dmy hi ++ ".".

(** [errs.append(msg)] under [if cond:] *)
Definition append_if (cond : bool) (msg : string) (errs : list string)
  : list string :=
  if cond then (errs ++ [msg])%list else errs.

(** Modelled from the spec: the difference of two dates in whole elapsed
    years (age in years, the floor of the elapsed time).  The code takes
    it from [relativedelta] of the dateutil library, which is not part of
    the repository; [validate_inputs] below takes that function as a
    parameter, and this model instantiates it in examples. *)
Definition elapsed_years (later earlier : date) : Z :=
  (year later - year earlier
   - (if (month later <? month earlier)
         || ((month later =? month earlier) && (day later <? day earlier))
      then 1 else 0))%Z.

Section Validate.

(** [relativedelta(dt1, dt2).years], from the dateutil library. *)
Variable relativedelta_years : date -> date -> Z.

(** The module-level bounds, both [date.today()] when the module is
    loaded. *)
Variables MAX_BIRTH MAX_ISSUE : date.

Definition validate_inputs (birth issue today : date)
  : result (list string) :=
  let errs := [] in
  let errs := append_if (gt birth today) err_birth_future errs in
  let errs := append_if (gt issue today) err_issue_future errs in
  let errs := append_if (lt issue birth) err_issue_before_birth errs in
  let errs :=
    append_if (relativedelta_years today birth <? 14)%Z err_under_14 errs in
  d14 <- safe_add_years birth 14 ;;
  let errs := append_if (lt issue d14) err_issue_before_14 errs in
  let errs :=
    append_if (negb (le MIN_BIRTH birth && le birth MAX_BIRTH))
              (err_birth_range MIN_BIRTH MAX_BIRTH) errs in
  let errs :=
    append_if (negb (le MIN_ISSUE issue && le issue MAX_ISSUE))
              (err_issue_range MIN_ISSUE MAX_ISSUE) errs in
  Ok errs.

(** The seven validation rules as the specification lists them: whether
    the rule is violated, and its message.  [d14] is [birth] plus 14
    years. *)
Definition violations (birth issue today d14 : date)
  : list (bool * string) :=
  [ (lt today birth, err_birth_future);
    (lt today issue, err_issue_future);
    (lt issue birth, err_issue_before_birth);
    ((relativedelta_years today birth <? 14)%Z, err_under_14);
    (lt issue d14, err_issue_before_14);
    (negb (le MIN_BIRTH birth && le birth MAX_BIRTH),
     err_birth_range MIN_BIRTH MAX_BIRTH);
    (negb (le MIN_ISSUE issue && le issue MAX_ISSUE),
     err_issue_range MIN_ISSUE MAX_ISSUE) ].

Definition messages (rules : list (bool * string)) : list string :=
  map snd (filter fst rules).

End Validate.

(** The "calculate" button of [passport_app]: the messages of
    [validate_inputs], and the report of [compute_status], which is only
    asked for when there is no message. *)
Definition passport_calculate
  (relativedelta_years : date -> date -> Z) (MAX_BIRTH MAX_ISSUE : date)
  (birth issue today : date) : result (list string * option status) :=
  errors <-
    validate_inputs relativedelta_years MAX_BIRTH MAX_ISSUE
      birth issue today ;;
  match errors with
  | [] => res <- compute_status birth issue today ;; Ok (errors, Some res)
  | _ => Ok (errors, None)
  end.

End Passport.

(** ** 2) Compliance template tool *)

Module Compliance.

Local Open Scope string_scope.

Definition intro_texts : dict string :=
  [("Russian",
    "Добрый день," ++ nl ++ nl ++
    "в соответствии с требованиями регулятора FSC Белиза и законодательством по борьбе с отмыванием денежных средств RoboForex Ltd обязана на регулярной основе осуществлять постоянную проверку и мониторинг личной информации своих клиентов.");
   ("English",
    "Hello," ++ nl ++ nl ++
    "in accordance with the requirements of the FSC Belize regulator and anti-money laundering legislation, RoboForex Ltd is obliged to regularly verify and monitor the personal information of its clients.")].

Definition closing_texts : dict string :=
  [("Russian",
    "Мы ценим ваше сотрудничество." ++ nl ++ nl ++
    "Если у вас есть какие-либо вопросы, пожалуйста, свяжитесь с нами." ++ nl ++ nl ++
    "С уважением,");
   ("English",
    "We appreciate your cooperation." ++ nl ++ nl ++
    "If you have any questions, please contact us." ++ nl ++ nl ++
    "Best regards,")].

Definition blocks : dict (dict (dict string)) :=
  [("SOF",
    [("Russian",
       [("lead",
         "В связи с этим, мы просим вас предоставить информацию об источнике средств, которые были зачислены на ваши торговые счета в RoboForex Ltd.");
        ("add",
         "Также, пожалуйста, предоставьте информацию об источнике средств, которые были зачислены на ваши торговые счета в RoboForex Ltd.");
        ("final",
         "Помимо этого, пожалуйста, предоставьте информацию об источнике средств, которые были зачислены на ваши торговые счета в RoboForex Ltd.");
        ("rest",
         nl ++ nl ++ "Прилагаем список документов, которые можно использовать для проверки происхождения средств." ++ nl ++ nl ++
         "Вы можете предоставить нам любые документы, такие как: справки о зарплате, налоговые декларации, доходы от бизнеса, продажи имущества и т. д. или любой другой документ, указанный в прилагаемом документе.")]);
      ("English",
       [("lead",
         "In this regard, we ask you to provide information on the source of funds credited to your trading accounts with RoboForex Ltd.");
        ("add",
         "Additionally, please provide information on the source of funds credited to your trading accounts with RoboForex Ltd.");
        ("final",
         "Moreover, please provide information on the source of funds credited to your trading accounts with RoboForex Ltd.");
        ("rest",
         nl ++ nl ++ "Attached is a list of documents that can be used to verify the origin of funds." ++ nl ++ nl ++
         "You can provide us with any documents, such as salary certificates, tax returns, business income, property sales, etc., or any other document specified in the attached document.")])]);
   ("ID",
    [("Russian",
       [("lead",
         "В связи с этим, мы просим вас предоставить скан или фото актуального паспорта, удостоверяющего вашу личность.");
        ("add",
         "Также, пожалуйста, предоставьте скан или фото актуального паспорта, удостоверяющего вашу личность.");
        ("final",
         "Помимо этого, пожалуйста, предоставьте скан или фото актуального паспорта, удостоверяющего вашу личность.");
        ("rest",
         EmptyString)]);
      ("English",
       [("lead",
         "In this regard, we ask you to provide a scan or photo of your valid passport or another identity document.");
        ("add",
         "Additionally, please provide a scan or photo of your valid passport or another identity document.");
        ("final",
         "Moreover, please provide a scan or photo of your valid passport or another identity document.");
        ("rest",
         EmptyString)])]);
   ("UB",
    [("Russian",
       [("lead",
         "В связи с этим, мы просим вас предоставить счёт за коммунальные услуги или банковскую выписку для подтверждения вашего адреса проживания.");
        ("add",
         "Также, пожалуйста, предоставьте счёт за коммунальные услуги или банковскую выписку для подтверждения вашего адреса проживания.");
        ("final",
         "Помимо этого, пожалуйста, предоставьте счёт за коммунальные услуги или банковскую выписку для подтверждения вашего адреса проживания.");
        ("rest",
         EmptyString)]);
      ("English",
       [("lead",
         "In this regard, we ask you to provide a utility bill or a bank statement to confirm your residential address.");
        ("add",
         "Additionally, please provide a utility bill or a bank statement to confirm your residential address.");
        ("final",
         "Moreover, please provide a utility bill or a bank statement to confirm your residential address.");
        ("rest",
         EmptyString)])])].

Definition PRIORITY : list string := ["SOF"; "ID"; "UB"].

Definition sort_by_priority (keys : list string) : list string :=
  filter (contains keys) PRIORITY.

(** The body of [for i, r in enumerate(ordered)], with [parts] the list
    built so far. *)
Fixpoint render_loop (lang : string) (i : Z) (ordered parts : list string)
  : result (list string) :=
  match ordered with
  | [] => Ok parts
  | r :: ordered' =>
      by_lang <- getitem blocks r ;;
      seg <- getitem by_lang lang ;;
      first_sentence <-
        (if (i =? 0)%Z then getitem seg "lead"
         else if (i =? 1)%Z then getitem seg "add"
         else getitem seg "final") ;;
      render_loop lang (i + 1)%Z ordered'
        (parts ++ [strip (first_sentence ++ get seg "rest" EmptyString)])%list
  end.

Definition render_middle_adaptive (lang : string) (reqs : list string)
  : result string :=
  let ordered := sort_by_priority reqs in
  parts <- render_loop lang 0 ordered [] ;;
  Ok (join (nl ++ nl) parts).

(** The text built in [compliance_app] once the selection is known to be
    non-empty. *)
Definition compose (language : string) (selected_parts : list string)
  : result string :=
  middle_text <- render_middle_adaptive language selected_parts ;;
  intro <- getitem intro_texts language ;;
  closing <- getitem closing_texts language ;;
  Ok (strip (intro ++ nl ++ nl ++ middle_text ++ nl ++ nl ++ closing)).

(** The text shown by the "Generate text" button. *)
Definition generate_text (language : string) (selected_parts : list string)
  : result string :=
  match selected_parts with
  | [] =>
      Ok (if String.eqb language "English"
          then "Please choose request options"
          else "Пожалуйста, выберите опции запроса")
  | _ => compose language selected_parts
  end.

Definition js_escape (s : string) : string :=
  replace
    (replace
       (replace
          (replace (replace s backslash (backslash ++ backslash))
                   backtick (backslash ++ backtick))
          "${" (backslash ++ "${"))
       cr EmptyString)
    nl (backslash ++ "n").

(** The languages of the text tables. *)
Definition languages : list string := keys intro_texts.

(** The sentence used at position [i] of the ordered categories. *)
Definition sentence_key (i : nat) : string :=
  match i with
  | O => "lead"
  | S O => "add"
  | _ => "final"
  end.

(** The block of category [r] at position [i]: the sentence for that
    position, the trailing text, trimmed. *)
Definition block (lang : string) (i : nat) (r : string) : result string :=
  by_lang <- getitem blocks r ;;
  seg <- getitem by_lang lang ;;
  sentence <- getitem seg (sentence_key i) ;;
  Ok (strip (sentence ++ get seg "rest" EmptyString)).

(** Intro, blocks and closing, a blank line between each, trimmed. *)
Definition layout (intro : string) (parts : list string) (closing : string)
  : string :=
  strip (intro ++ nl ++ nl ++ join (nl ++ nl) parts ++ nl ++ nl ++ closing).

(** What the first two replacements of [js_escape] do to one character,
    and what the last two do. *)
Definition quote_char (c : ascii) : string :=
  if Ascii.eqb c "092" then backslash ++ backslash
  else if Ascii.eqb c "096" then backslash ++ backtick
  else String c EmptyString.

Definition line_char (c : ascii) : string :=
  if Ascii.eqb c "013" then EmptyString
  else if Ascii.eqb c "010" then backslash ++ "n"
  else String c EmptyString.

(** The five replacements regrouped: a map, the replacement of the
    two-character pattern, a map. *)
Definition escape_maps (s : string) : string :=
  map_chars line_char
    (replace (map_chars quote_char s) "${" (backslash ++ "${")).

(** A character that none of the five replacements touches. *)
Definition plain_char (c : ascii) : bool :=
  negb (Ascii.eqb c "092" || Ascii.eqb c "096" || Ascii.eqb c "$"
        || Ascii.eqb c "013" || Ascii.eqb c "010").

(** A text reads as escaped when, from the left, it is made of two-character
    escapes (a backslash followed by a backslash, a backtick, "$" or "n")
    and of single characters other than backslash, backtick, carriage
    return and newline. *)
Fixpoint well_escaped (s : string) : bool :=
  match s with
  | EmptyString => true
  | String c s' =>
      if Ascii.eqb c "092" then
        match s' with
        | String e s'' =>
            (Ascii.eqb e "092" || Ascii.eqb e "096" || Ascii.eqb e "$"
             || Ascii.eqb e "n") && well_escaped s''
        | EmptyString => false
        end
      else
        negb (Ascii.eqb c "096" || Ascii.eqb c "013" || Ascii.eqb c "010")
        && well_escaped s'
  end.

(** Escaping in one pass over the input: a backslash before each
    backslash, backtick and "${"; carriage returns dropped; a newline
    written as backslash and n. *)
Fixpoint escape_scan (s : string) : string :=
  match s with
  | EmptyString => EmptyString
  | String c s' =>
      if Ascii.eqb c "092" then backslash ++ backslash ++ escape_scan s'
      else if Ascii.eqb c "096" then backslash ++ backtick ++ escape_scan s'
      else if Ascii.eqb c "$" then
        match s' with
        | String c' s'' =>
            if Ascii.eqb c' "{" then backslash ++ "${" ++ escape_scan s''
            else String c (escape_scan s')
        | EmptyString => String c (escape_scan s')
        end
      else if Ascii.eqb c "013" then escape_scan s'
      else if Ascii.eqb c "010" then backslash ++ "n" ++ escape_scan s'
      else String c (escape_scan s')
  end.

End Compliance.

(** * Properties *)

(** ** Calendar arithmetic *)

Module PyDateFacts.

(** *** Order *)

Ltac order_cases :=
  unfold lt, le, gt, ge, cmp, before in *;
  repeat match goal with
         | |- context [Z.compare ?x ?y] => destruct (Z.compare_spec x y)
         | H : context [Z.compare ?x ?y] |- _ => destruct (Z.compare_spec x y)
         end.

Lemma lt_before a b : lt a b = true <-> before a b.
Proof. order_cases; split; intros; try discriminate; try reflexivity; lia. Qed.

Lemma gt_lt a b : gt a b = lt b a.
Proof. order_cases; try reflexivity; lia. Qed.

Lemma le_lt a b : le a b = negb (lt b a).
Proof. order_cases; try reflexivity; lia. Qed.

Lemma ge_lt a b : ge a b = negb (lt a b).
Proof. order_cases; try reflexivity; lia. Qed.

Lemma date_eq a b :
  year a = year b -> month a = month b -> day a = day b -> a = b.
Proof. destruct a, b; simpl; congruence. Qed.

Lemma before_trichotomy a b : before a b \/ a = b \/ before b a.
Proof.
  destruct (Z.lt_total (year a) (year b)) as [|[]];
  destruct (Z.lt_total (month a) (month b)) as [|[]];
  destruct (Z.lt_total (day a) (day b)) as [|[]];
  unfold before; try lia.
  right; left; now apply date_eq.
Qed.

(** *** The constructor check *)

Lemma check_date_fields_Ok y m d r :
  check_date_fields y m d = Ok r -> r = mkdate y m d /\ valid_date r.
Proof.
  unfold check_date_fields, valid_date, MINYEAR, MAXYEAR.
  destruct ((1 <=? y) && _) eqn:Hy; cbn [negb]; [|discriminate].
  destruct ((1 <=? m) && _) eqn:Hm; cbn [negb]; [|discriminate].
  destruct ((1 <=? d) && _) eqn:Hd; cbn [negb]; [|discriminate].
  intros [= <-]; cbn [year month day]. split; [reflexivity | lia].
Qed.

Lemma check_date_fields_valid y m d :
  valid_date (mkdate y m d) -> check_date_fields y m d = Ok (mkdate y m d).
Proof.
  unfold check_date_fields, valid_date, MINYEAR, MAXYEAR; simpl.
  intros (Hy & Hm & Hd).
  replace ((1 <=? y) && (y <=? 9999)) with true by lia.
  replace ((1 <=? m) && (m <=? 12)) with true by lia.
  replace ((1 <=? d) && (d <=? days_in_month y m)) with true by lia.
  reflexivity.
Qed.

Lemma check_date_fields_error y m d e :
  check_date_fields y m d = Raise e -> e = ValueError.
Proof.
  unfold check_date_fields.
  repeat (destruct (negb _); [now intros [= <-]|]). discriminate.
Qed.

(** *** Days before a year *)

Ltac divmod := Z.to_euclidean_division_equations.

Lemma is_leap_true y :
  is_leap y = true <-> y mod 4 = 0 /\ (y mod 100 <> 0 \/ y mod 400 = 0).
Proof.
  unfold is_leap.
  destruct (Z.eqb_spec (y mod 4) 0), (Z.eqb_spec (y mod 100) 0),
    (Z.eqb_spec (y mod 400) 0); simpl; intuition (try discriminate; try lia).
Qed.

Lemma days_before_year_succ y :
  days_before_year (y + 1) =
  days_before_year y + (if is_leap y then 366 else 365).
Proof.
  destruct (is_leap y) eqn:L.
  - apply is_leap_true in L. unfold days_before_year. divmod. lia.
  - assert (N : ~ (y mod 4 = 0 /\ (y mod 100 <> 0 \/ y mod 400 = 0))).
    { rewrite <- is_leap_true, L. discriminate. }
    unfold days_before_year. divmod. lia.
Qed.

Lemma days_before_year_mono y1 y2 :
  y1 <= y2 -> days_before_year y1 <= days_before_year y2.
Proof. unfold days_before_year. divmod. lia. Qed.


(** *** Days before a month *)

Ltac month_cases m :=
  let H := fresh in
  assert (H : m = 1 \/ m = 2 \/ m = 3 \/ m = 4 \/ m = 5 \/ m = 6 \/
              m = 7 \/ m = 8 \/ m = 9 \/ m = 10 \/ m = 11 \/ m = 12) by lia;
  repeat (destruct H as [H | H]; [subst m|]); [..|subst m].

Ltac table y :=
  unfold days_in_month, days_before_month, index;
  destruct (is_leap y); simpl.

(** Evaluate the table lookups at known months, leaving the arithmetic on
    variables alone. *)
Ltac lookup :=
  unfold index;
  repeat match goal with
         | |- context [Z.to_nat ?c] =>
             let v := eval vm_compute in (Z.to_nat c) in
             change (Z.to_nat c) with v
         | |- context [Z.pos ?p - 1] =>
             let v := eval vm_compute in (Z.pos p - 1) in
             change (Z.pos p - 1) with v
         end;
  cbn -[Z.add Z.sub Z.mul].

Lemma days_in_month_bounds y m :
  1 <= m <= 12 -> 28 <= days_in_month y m <= 31.
Proof. intros Hm. month_cases m; table y; lia. Qed.

Lemma days_before_month_succ y m :
  1 <= m < 12 ->
  days_before_month y (m + 1) = days_before_month y m + days_in_month y m.
Proof. intros Hm. month_cases m; table y; lia. Qed.

Lemma days_before_month_add y m (k : nat) :
  1 <= m -> m + Z.of_nat k <= 12 ->
  days_before_month y m <= days_before_month y (m + Z.of_nat k).
Proof.
  intros H1. induction k as [|k IH]; intros H2.
  - replace (m + Z.of_nat 0) with m by lia. lia.
  - replace (m + Z.of_nat (S k)) with (m + Z.of_nat k + 1) by lia.
    rewrite days_before_month_succ by lia.
    pose proof (days_in_month_bounds y (m + Z.of_nat k)). lia.
Qed.

Lemma days_before_month_mono y m1 m2 :
  1 <= m1 -> m1 <= m2 -> m2 <= 12 ->
  days_before_month y m1 <= days_before_month y m2.
Proof.
  intros H1 H12 H2.
  replace m2 with (m1 + Z.of_nat (Z.to_nat (m2 - m1))) by lia.
  apply days_before_month_add; lia.
Qed.

Lemma days_before_month_end y :
  days_before_month y 12 + days_in_month y 12 =
  if is_leap y then 366 else 365.
Proof. table y; reflexivity. Qed.

Lemma day_of_year_bounds y m d :
  1 <= m <= 12 -> 1 <= d <= days_in_month y m ->
  1 <= days_before_month y m + d <= if is_leap y then 366 else 365.
Proof.
  intros Hm Hd.
  pose proof (days_before_month_mono y 1 m).
  pose proof (days_before_month_mono y m 12).
  pose proof (days_before_month_end y).
  assert (days_before_month y 1 = 0) by reflexivity.
  destruct (Z.eq_dec m 12) as [->|].
  - lia.
  - pose proof (days_before_month_succ y m).
    pose proof (days_before_month_mono y (m + 1) 12).
    pose proof (days_in_month_bounds y 12). lia.
Qed.

(** *** [toordinal] respects the order of dates *)

Lemma toordinal_before a b :
  valid_date a -> valid_date b -> before a b -> toordinal a < toordinal b.
Proof.
  intros (_ & Hma & Hda) (_ & Hmb & Hdb) Hab.
  unfold toordinal, ymd2ord.
  pose proof (day_of_year_bounds _ _ _ Hma Hda).
  pose proof (day_of_year_bounds _ _ _ Hmb Hdb).
  destruct Hab as [Hy | (Hy & [Hm | (Hm & Hd)])].
  - pose proof (days_before_year_succ (year a)).
    pose proof (days_before_year_mono (year a + 1) (year b)).
    destruct (is_leap (year a)); lia.
  - rewrite Hy in *.
    pose proof (days_before_month_succ (year b) (month a)).
    pose proof (days_before_month_mono (year b) (month a + 1) (month b)).
    lia.
  - rewrite Hy, Hm. lia.
Qed.

Lemma lt_toordinal a b :
  valid_date a -> valid_date b ->
  lt a b = true <-> toordinal a < toordinal b.
Proof.
  intros Ha Hb. rewrite lt_before. split.
  - now apply toordinal_before.
  - intros Hlt. destruct (before_trichotomy a b) as [H | [-> | H]].
    + exact H.
    + lia.
    + apply toordinal_before in H; trivial. lia.
Qed.


(** *** [ord2ymd] inverts [ymd2ord] *)

Lemma month_of_offset (l : bool) k :
  0 <= k < (if l then 366 else 365) ->
  let month := Z.shiftr (k + 50) 5 in
  let preceding :=
    index DAYS_BEFORE_MONTH month + (if (2 <? month) && l then 1 else 0) in
  let '(month, preceding) :=
    if k <? preceding then
      (month - 1,
       preceding - (index DAYS_IN_MONTH (month - 1)
                    + (if (month - 1 =? 2) && l then 1 else 0)))
    else (month, preceding) in
  1 <= month <= 12 /\
  1 <= k - preceding + 1 <=
    (if (month =? 2) && l then 29 else index DAYS_IN_MONTH month) /\
  index DAYS_BEFORE_MONTH month + (if (2 <? month) && l then 1 else 0)
    + (k - preceding + 1) = k + 1.
Proof.
  intros Hk. rewrite Z.shiftr_div_pow2 by lia. change (2 ^ 5) with 32.
  set (m := (k + 50) / 32).
  assert (Hm : 1 <= m <= 12) by (subst m; destruct l; divmod; lia).
  assert (Hq : 32 * m <= k + 50 < 32 * m + 32) by (subst m; divmod; lia).
  clearbody m. cbv zeta.
  month_cases m; destruct l; lookup;
    match goal with |- context [k <? ?p] => destruct (Z.ltb_spec k p) end;
    lookup; lia.
Qed.

Lemma ord2ymd_spec n :
  1 <= n ->
  let '(y, m, d) := ord2ymd n in
  1 <= m <= 12 /\ 1 <= d <= days_in_month y m /\ ymd2ord y m d = n /\ 1 <= y.
Proof.
  intros Hn. unfold ord2ymd, DI400Y, DI100Y, DI4Y. cbv zeta.
  set (n0 := n - 1).
  pose proof (Z.div_mod n0 146097) as E1.
  pose proof (Z.mod_pos_bound n0 146097) as B1.
  set (a := n0 / 146097) in *. set (r := n0 mod 146097) in *.
  pose proof (Z.div_mod r 36524) as E2.
  pose proof (Z.mod_pos_bound r 36524) as B2.
  set (b := r / 36524) in *. set (r2 := r mod 36524) in *.
  pose proof (Z.div_mod r2 1461) as E3.
  pose proof (Z.mod_pos_bound r2 1461) as B3.
  set (c := r2 / 1461) in *. set (r3 := r2 mod 1461) in *.
  pose proof (Z.div_mod r3 365) as E4.
  pose proof (Z.mod_pos_bound r3 365) as B4.
  set (e := r3 / 365) in *. set (k := r3 mod 365) in *.
  assert (Ha : 0 <= a) by (subst a n0; divmod; lia).
  clearbody a r b r2 c r3 e k.
  specialize (E1 ltac:(lia)). specialize (B1 ltac:(lia)).
  specialize (E2 ltac:(lia)). specialize (B2 ltac:(lia)).
  specialize (E3 ltac:(lia)). specialize (B3 ltac:(lia)).
  specialize (E4 ltac:(lia)). specialize (B4 ltac:(lia)).
  set (y := a * 400 + 1 + (b * 100 + c * 4 + e)).
  destruct ((e =? 4) || (b =? 4)) eqn:Hend.
  - assert (L : is_leap (y - 1) = true).
    { apply is_leap_true. subst y. divmod. lia. }
    unfold ymd2ord, days_in_month, days_before_month, index. rewrite L. simpl.
    repeat split; try lia.
    unfold days_before_year. subst y n0. divmod. lia.
  - apply orb_false_iff in Hend as [He Hb].
    apply Z.eqb_neq in He, Hb.
    set (l := (e =? 3) && (negb (c =? 24) || (b =? 3))).
    assert (L : is_leap y = l).
    { subst l. destruct (Z.eqb_spec e 3), (Z.eqb_spec c 24), (Z.eqb_spec b 3);
        simpl.
      all: try (apply is_leap_true; subst y; divmod; lia).
      all: apply not_true_is_false; rewrite is_leap_true;
        subst y; divmod; lia. }
    assert (Hk : 0 <= k < if l then 366 else 365) by (destruct l; lia).
    pose proof (month_of_offset l k Hk) as M. cbv zeta in M.
    destruct (if k <? _ then _ else _) as [m p].
    unfold ymd2ord, days_in_month, days_before_month. rewrite L.
    destruct M as (M1 & M2 & M3).
    repeat split; try lia.
    unfold days_before_year. subst y n0. divmod. lia.
Qed.

Lemma fromordinal_spec n :
  1 <= n <= MAXORDINAL ->
  exists d, fromordinal n = Ok d /\ valid_date d /\ toordinal d = n.
Proof.
  intros [H1 H2]. unfold fromordinal.
  pose proof (ord2ymd_spec n H1) as S.
  destruct (ord2ymd n) as [[y m] d]. destruct S as (Sm & Sd & So & Sy).
  assert (Hy : y <= MAXYEAR).
  { destruct (Z_le_gt_dec y MAXYEAR) as [|G]; trivial. exfalso.
    pose proof (days_before_year_mono (MAXYEAR + 1) y ltac:(lia)) as Mo.
    pose proof (day_of_year_bounds y m d Sm Sd).
    unfold ymd2ord in So. change (days_before_year (MAXYEAR + 1)) with MAXORDINAL in Mo.
    lia. }
  exists (mkdate y m d).
  assert (V : valid_date (mkdate y m d)) by (unfold valid_date, MINYEAR; simpl; lia).
  auto using check_date_fields_valid.
Qed.

End PyDateFacts.

Import PyDateFacts.

(** ** Passport tool *)

Module PassportFacts.

Import Passport.

Lemma lt_not_before a b : lt a b = false <-> ~ before a b.
Proof.
  rewrite <- lt_before. destruct (lt a b); split; congruence.
Qed.

(** Decide a goal about the order of dates from comparisons in the
    context. *)
Ltac order_prop :=
  rewrite ?gt_lt, ?ge_lt, ?le_lt, ?negb_true_iff, ?negb_false_iff in *;
  repeat match goal with
         | H : lt _ _ = true |- _ => apply lt_before in H
         | H : lt _ _ = false |- _ => apply lt_not_before in H
         | |- lt _ _ = true => apply lt_before
         | |- lt _ _ = false => apply lt_not_before
         end;
  unfold before in *; lia.

Lemma checked_valid d :
  check_date_fields (year d) (month d) (day d) = Ok d -> valid_date d.
Proof. intros H. now apply check_date_fields_Ok in H. Qed.

Lemma toordinal_pos d : valid_date d -> 1 <= toordinal d.
Proof.
  intros (Hy & Hm & Hd). unfold toordinal, ymd2ord.
  pose proof (days_before_year_mono 1 (year d)) as M.
  change (days_before_year 1) with 0 in M.
  pose proof (day_of_year_bounds _ _ _ Hm Hd).
  unfold MINYEAR in Hy. lia.
Qed.

Lemma add_days_Ok d n r :
  valid_date d -> add_days d n = Ok r ->
  valid_date r /\ toordinal r = toordinal d + n.
Proof.
  intros Hd. unfold add_days.
  destruct ((0 <? toordinal d + n) && (toordinal d + n <=? MAXORDINAL)) eqn:B;
    [|discriminate].
  destruct (fromordinal_spec (toordinal d + n)) as (x & E & V & T); [lia|].
  rewrite E. intros [= <-]. auto.
Qed.

Lemma add_days_returns d n :
  valid_date d -> 0 <= n -> toordinal d + n <= MAXORDINAL ->
  returns (add_days d n).
Proof.
  intros Hd Hn Hmax. unfold add_days, returns.
  pose proof (toordinal_pos d Hd).
  replace ((0 <? toordinal d + n) && (toordinal d + n <=? MAXORDINAL))
    with true by lia.
  destruct (fromordinal_spec (toordinal d + n)) as (x & E & _); [lia|].
  eauto.
Qed.

(** *** [safe_add_years] *)

Lemma safe_add_years_Ok d n r :
  safe_add_years d n = Ok r ->
  valid_date r /\ year r = year d + n /\
  ((month r = month d /\ day r = day d) \/ (month r = 2 /\ day r = 28)).
Proof.
  unfold safe_add_years, try_except_ValueError, PyDate.replace; simpl.
  destruct (check_date_fields (year d + n) (month d) (day d)) as [x|e] eqn:E1.
  - intros [= <-]. apply check_date_fields_Ok in E1 as [-> V]. simpl; auto.
  - apply check_date_fields_error in E1 as ->. intros E2.
    apply check_date_fields_Ok in E2 as [-> V]. simpl; auto.
Qed.

Lemma safe_add_years_raises d n :
  ~ MINYEAR <= year d + n <= MAXYEAR -> safe_add_years d n = Raise ValueError.
Proof.
  intros N. unfold safe_add_years, try_except_ValueError, PyDate.replace,
    check_date_fields; simpl.
  replace ((MINYEAR <=? year d + n) && (year d + n <=? MAXYEAR)) with false
    by lia.
  reflexivity.
Qed.

Lemma safe_add_years_returns d n :
  MINYEAR <= year d + n <= MAXYEAR -> returns (safe_add_years d n).
Proof.
  intros Hn.
  unfold safe_add_years, try_except_ValueError, PyDate.replace, returns.
  simpl.
  destruct (check_date_fields (year d + n) (month d) (day d)) as [x|e] eqn:E.
  - eauto.
  - apply check_date_fields_error in E as ->.
    rewrite check_date_fields_valid; eauto.
    pose proof (days_in_month_bounds (year d + n) 2).
    unfold valid_date; simpl. lia.
Qed.

Lemma safe_add_years_lt d n1 n2 r1 r2 :
  n1 < n2 -> safe_add_years d n1 = Ok r1 -> safe_add_years d n2 = Ok r2 ->
  lt r1 r2 = true.
Proof.
  intros Hn E1 E2.
  apply safe_add_years_Ok in E1 as (_ & Y1 & _).
  apply safe_add_years_Ok in E2 as (_ & Y2 & _).
  apply lt_before. left. lia.
Qed.


(** C6, as amended.  For a date [d] that is 29 February of a leap year and
    a count [N] of years such that [year d + N] is a year of the calendar
    (1..9999) and not a leap year, [safe_add_years d N] returns 28 February
    of year [year d + N] without raising; and whenever [safe_add_years]
    returns, the year of the result is exactly [year d + N]. *)
Theorem safe_add_years_feb29 d N :
  month d = 2 -> day d = 29 -> is_leap (year d) = true ->
  is_leap (year d + N) = false ->
  MINYEAR <= year d + N <= MAXYEAR ->
  safe_add_years d N = Ok (mkdate (year d + N) 2 28) /\
  (forall d' N' r, safe_add_years d' N' = Ok r -> year r = year d' + N').
Proof.
  intros Hm Hd _ HN Hy. split.
  - unfold safe_add_years, PyDate.replace; simpl. rewrite Hm, Hd.
    assert (E : check_date_fields (year d + N) 2 29 = Raise ValueError).
    { unfold check_date_fields, days_in_month. rewrite HN.
      replace ((MINYEAR <=? year d + N) && (year d + N <=? MAXYEAR))
        with true by lia.
      reflexivity. }
    rewrite E. simpl. apply check_date_fields_valid.
    pose proof (days_in_month_bounds (year d + N) 2).
    unfold valid_date; simpl. lia.
  - intros d' N' r E. now apply safe_add_years_Ok in E.
Qed.

Lemma safe_add_years_feb29_witness :
  safe_add_years (mkdate 2000 2 29) 14 = Ok (mkdate 2014 2 28).
Proof.
  apply (safe_add_years_feb29 (mkdate 2000 2 29) 14);
    unfold MINYEAR, MAXYEAR; simpl; (reflexivity || lia).
Defined.

(** C6 as stated fails: 9996-02-29 is 29 February of a leap year and
    10001 is not a leap year, but adding 5 years raises [ValueError], the
    year 10001 being past [MAXYEAR] in the fallback as well. *)
Lemma safe_add_years_feb29_overflow :
  valid_date (mkdate 9996 2 29) /\ is_leap 9996 = true /\
  is_leap (9996 + 5) = false /\
  safe_add_years (mkdate 9996 2 29) 5 = Raise ValueError.
Proof.
  unfold valid_date, MINYEAR, MAXYEAR; simpl. repeat split; try lia.
  all: vm_compute; congruence.
Qed.

(** *** [current_passport_stage] *)

Lemma le_lt_trans a b c : le a b = true -> lt b c = true -> lt a c = true.
Proof. intros H1 H2. order_prop. Qed.

Lemma current_passport_stage_eq birth issue d14 d20 d45 :
  safe_add_years birth 14 = Ok d14 ->
  safe_add_years birth 20 = Ok d20 ->
  safe_add_years birth 45 = Ok d45 ->
  current_passport_stage birth issue =
  Ok (if ge issue d45 then Some 45
      else if ge issue d20 then Some 20
      else if ge issue d14 then Some 14
      else None).
Proof.
  intros E14 E20 E45. unfold current_passport_stage.
  rewrite E14, E20, E45; simpl.
  pose proof (safe_add_years_lt birth 14 20 _ _ ltac:(lia) E14 E20) as L1.
  pose proof (safe_add_years_lt birth 20 45 _ _ ltac:(lia) E20 E45) as L2.
  rewrite !ge_lt, !le_lt.
  destruct (lt issue d45) eqn:A, (lt issue d20) eqn:B, (lt issue d14) eqn:C;
    simpl; try reflexivity.
  all: exfalso; order_prop.
Qed.

Lemma current_passport_stage_returns birth issue :
  year birth + 45 <= MAXYEAR -> MINYEAR <= year birth ->
  returns (current_passport_stage birth issue).
Proof.
  intros H1 H2.
  destruct (safe_add_years_returns birth 14) as [d14 E14]; [lia|].
  destruct (safe_add_years_returns birth 20) as [d20 E20]; [lia|].
  destruct (safe_add_years_returns birth 45) as [d45 E45]; [lia|].
  rewrite (current_passport_stage_eq _ _ _ _ _ E14 E20 E45).
  unfold returns; eauto.
Qed.

(** C5.  For a fixed birth date the stage is monotone non-decreasing in
    the issue date along Unknown < 14 < 20 < 45: the thresholds
    d14 < d20 < d45 are the Feb-29-safe additions, the stage is Unknown
    before d14, 14 from d14, 20 from d20 and 45 from d45 on, so a later
    issue date never has a smaller stage.  The stage is defined for
    every issue date when birth + 45 years is a year of the calendar. *)
Theorem current_passport_stage_monotone birth :
  (forall i1 i2 s1 s2,
      le i1 i2 = true ->
      current_passport_stage birth i1 = Ok s1 ->
      current_passport_stage birth i2 = Ok s2 ->
      stage_rank s1 <= stage_rank s2) /\
  (forall d14 d20 d45,
      safe_add_years birth 14 = Ok d14 ->
      safe_add_years birth 20 = Ok d20 ->
      safe_add_years birth 45 = Ok d45 ->
      lt d14 d20 = true /\ lt d20 d45 = true /\
      forall issue,
        current_passport_stage birth issue =
        Ok (if ge issue d45 then Some 45
            else if ge issue d20 then Some 20
            else if ge issue d14 then Some 14
            else None)) /\
  (MINYEAR <= year birth -> year birth + 45 <= MAXYEAR ->
   forall issue, returns (current_passport_stage birth issue)).
Proof.
  split; [|split].
  - intros i1 i2 s1 s2 Hle E1 E2.
    destruct (safe_add_years birth 14) as [d14|] eqn:E14;
      [|unfold current_passport_stage in E1; rewrite E14 in E1; discriminate].
    destruct (safe_add_years birth 20) as [d20|] eqn:E20;
      [|unfold current_passport_stage in E1; rewrite E14, E20 in E1;
        discriminate].
    destruct (safe_add_years birth 45) as [d45|] eqn:E45;
      [|unfold current_passport_stage in E1; rewrite E14, E20, E45 in E1;
        discriminate].
    rewrite (current_passport_stage_eq _ i1 _ _ _ E14 E20 E45) in E1.
    rewrite (current_passport_stage_eq _ i2 _ _ _ E14 E20 E45) in E2.
    injection E1 as <-. injection E2 as <-.
    pose proof (le_lt_trans i1 i2 d45 Hle) as A.
    pose proof (le_lt_trans i1 i2 d20 Hle) as B.
    pose proof (le_lt_trans i1 i2 d14 Hle) as C.
    rewrite !ge_lt.
    destruct (lt i1 d45), (lt i1 d20), (lt i1 d14),
      (lt i2 d45), (lt i2 d20), (lt i2 d14); simpl; try lia.
    all: exfalso; intuition discriminate.
  - intros d14 d20 d45 E14 E20 E45. repeat split.
    + exact (safe_add_years_lt birth 14 20 _ _ ltac:(lia) E14 E20).
    + exact (safe_add_years_lt birth 20 45 _ _ ltac:(lia) E20 E45).
    + intros issue. now apply current_passport_stage_eq.
  - intros H1 H2 issue. now apply current_passport_stage_returns.
Qed.

Lemma current_passport_stage_monotone_witness :
  stage_rank (Some 14) <= stage_rank (Some 45).
Proof.
  apply (proj1 (current_passport_stage_monotone (mkdate 1970 1 1))
           (mkdate 1984 1 1) (mkdate 2015 1 1)); reflexivity.
Defined.


(** *** [compute_status] *)

Local Open Scope string_scope.

(** What a returned report looks like: either the "no_more" report, or a
    report classified against its own [next_change] and [deadline]. *)
Lemma compute_status_Ok birth issue today r :
  compute_status birth issue today = Ok r ->
  (next_change r = None /\ deadline r = None /\
   status_kind r = "no_more" /\ days_left r = None) \/
  (exists nc dl,
      valid_date nc /\ add_days nc 90 = Ok dl /\
      next_change r = Some nc /\ deadline r = Some dl /\
      (status_kind r, days_left r) =
      if gt today dl then ("invalid", None)
      else if ge today nc then ("due", Some (sub_days dl today))
      else ("ok", Some (sub_days nc today))).
Proof.
  unfold compute_status.
  destruct (safe_add_years birth 20) as [d20|] eqn:E20; [|discriminate].
  destruct (safe_add_years birth 45) as [d45|] eqn:E45; [|discriminate].
  destruct (current_passport_stage birth issue) as [stage|]; [|discriminate].
  apply safe_add_years_Ok in E20 as (V20 & _).
  apply safe_add_years_Ok in E45 as (V45 & _).
  cbn [bind].
  assert (K : forall nc,
    valid_date nc ->
    (deadline <- add_days nc 90 ;;
     (let '(status_kind, days_left) :=
        if gt today deadline then ("invalid", None)
        else if ge today nc then ("due", Some (sub_days deadline today))
        else ("ok", Some (sub_days nc today)) in
      Ok (mkstatus (classify_passport_stage_text stage) (Some nc)
            (Some deadline) status_kind days_left))) = Ok r ->
    exists nc dl,
      valid_date nc /\ add_days nc 90 = Ok dl /\
      next_change r = Some nc /\ deadline r = Some dl /\
      (status_kind r, days_left r) =
      if gt today dl then ("invalid", None)
      else if ge today nc then ("due", Some (sub_days dl today))
      else ("ok", Some (sub_days nc today))).
  { intros nc V. destruct (add_days nc 90) as [dl|] eqn:Ea; [|discriminate].
    cbn [bind]. intros H. exists nc, dl.
    destruct (gt today dl); [|destruct (ge today nc)];
      injection H as <-; cbn; auto. }
  destruct (stage_eqb stage 45).
  { intros [= <-]. left. cbn. auto. }
  destruct (stage_eqb stage 20); [right; eauto|].
  destruct (stage_eqb stage 14); [right; eauto|].
  destruct (lt today d20); [right; eauto|].
  destruct (lt today d45); [right; eauto|].
  intros [= <-]. left. cbn. auto.
Qed.

(** C2.  Every report returned by [compute_status] satisfies the record
    invariant: kind "no_more" implies that [next_change] and [deadline]
    are both absent; kind "invalid" implies that [days_left] is absent;
    and a present [deadline] is [next_change] plus 90 days. *)
Theorem compute_status_invariant birth issue today r :
  compute_status birth issue today = Ok r ->
  (status_kind r = "no_more" ->
   next_change r = None /\ deadline r = None) /\
  (status_kind r = "invalid" -> days_left r = None) /\
  (forall dl, deadline r = Some dl ->
     exists nc, next_change r = Some nc /\ add_days nc 90 = Ok dl /\
                sub_days dl nc = 90).
Proof.
  intros H. apply compute_status_Ok in H
    as [(Hn & Hd & Hk & Hl) | (nc & dl & V & Ea & Hn & Hd & Hc)].
  - split; [|split]; auto.
    intros dl E. rewrite Hd in E. discriminate.
  - assert (Kinds :
      (status_kind r = "invalid" /\ days_left r = None) \/
      (status_kind r = "due") \/ (status_kind r = "ok")).
    { destruct (gt today dl); [|destruct (ge today nc)];
        injection Hc as -> ->; auto. }
    split; [|split].
    + intros K. destruct Kinds as [[K' _] | [K' | K']];
        rewrite K' in K; discriminate.
    + intros K. destruct Kinds as [[_ L] | [K' | K']]; trivial;
        rewrite K' in K; discriminate.
    + intros dl' E. rewrite Hd in E. injection E as <-.
      exists nc. repeat split; trivial.
      apply add_days_Ok in Ea as [_ T]; trivial. unfold sub_days. lia.
Qed.

Lemma compute_status_invariant_witness :
  exists r,
    compute_status (mkdate 1990 1 1) (mkdate 2010 1 1) (mkdate 2024 6 1)
    = Ok r /\
    (status_kind r = "invalid" -> days_left r = None).
Proof.
  eexists. split; [reflexivity|].
  apply (compute_status_invariant
           (mkdate 1990 1 1) (mkdate 2010 1 1) (mkdate 2024 6 1)).
  reflexivity.
Defined.

(** C1.  When [compute_status] reaches the classification step
    ([next_change] present), the kind is exactly one of "invalid", "due",
    "ok" (never "no_more"), decided by the comparison of today with
    [next_change] and the deadline: today after the deadline gives
    "invalid" with no [days_left]; today from [next_change] to the
    deadline gives "due" with [days_left] the days from today to the
    deadline, at least 0; today before [next_change] gives "ok" with
    [days_left] the days from today to [next_change], more than 0. *)
Theorem compute_status_classification birth issue today r nc :
  valid_date today ->
  compute_status birth issue today = Ok r ->
  next_change r = Some nc ->
  exists dl,
    deadline r = Some dl /\ add_days nc 90 = Ok dl /\
    (gt today dl = true ->
     status_kind r = "invalid" /\ days_left r = None) /\
    (le nc today = true -> le today dl = true ->
     status_kind r = "due" /\ days_left r = Some (sub_days dl today) /\
     0 <= sub_days dl today) /\
    (lt today nc = true ->
     status_kind r = "ok" /\ days_left r = Some (sub_days nc today) /\
     0 < sub_days nc today) /\
    ((gt today dl = true /\ lt today nc = false /\
      (le nc today && le today dl) = false) \/
     (gt today dl = false /\ lt today nc = false /\
      (le nc today && le today dl) = true) \/
     (gt today dl = false /\ lt today nc = true /\
      (le nc today && le today dl) = false)) /\
    status_kind r <> "no_more".
Proof.
  intros Vt H Hnc. apply compute_status_Ok in H
    as [(Hn & _) | (nc' & dl & V & Ea & Hn & Hd & Hc)];
    rewrite Hn in Hnc; [discriminate|]. injection Hnc as ->.
  exists dl. split; [exact Hd|]. split; [exact Ea|].
  apply add_days_Ok in Ea as [Vdl T]; trivial.
  pose proof (lt_toordinal dl today Vdl Vt) as O1.
  pose proof (lt_toordinal today nc Vt V) as O2.
  pose proof (lt_toordinal nc today V Vt) as O3.
  pose proof (lt_toordinal today dl Vt Vdl) as O4.
  unfold sub_days. rewrite !gt_lt, !le_lt, ge_lt in *.
  destruct (lt dl today) eqn:A, (lt today nc) eqn:B,
    (lt nc today) eqn:C, (lt today dl) eqn:D;
    try (exfalso; intuition (try discriminate; lia));
    cbn in Hc; injection Hc as -> ->; cbn.
  all: repeat split; try discriminate; try reflexivity; try lia;
    try (intros; discriminate); auto.
  all: try (intros _ _; repeat split; reflexivity || lia).
  all: try (intros _; repeat split; reflexivity || lia).
Qed.

Lemma compute_status_classification_witness :
  exists dl,
    add_days (mkdate 2035 1 1) 90 = Ok dl /\
    (lt (mkdate 2024 6 1) (mkdate 2035 1 1) = true ->
     0 < sub_days (mkdate 2035 1 1) (mkdate 2024 6 1)).
Proof.
  destruct (compute_status_classification
              (mkdate 1990 1 1) (mkdate 2010 1 1) (mkdate 2024 6 1)
              (mkstatus (classify_passport_stage_text (Some 20))
                 (Some (mkdate 2035 1 1)) (Some (mkdate 2035 4 1))
                 "ok" (Some 3866))
              (mkdate 2035 1 1))
    as (dl & _ & Ea & _ & _ & Hok & _).
  - apply checked_valid. reflexivity.
  - reflexivity.
  - reflexivity.
  - exists dl. split; [exact Ea|]. intros L. apply Hok in L. tauto.
Defined.


(** C3, as amended.  For birth 1970-01-01, issue 1984-01-01 and today
    2020-01-01 the stage is 14, [next_change] is 1990-01-01, the deadline
    is 1990-04-01, which is 90 days later, and, today being after the
    deadline, the kind is "invalid". *)
Theorem compute_status_example_1970 :
  current_passport_stage (mkdate 1970 1 1) (mkdate 1984 1 1) = Ok (Some 14) /\
  compute_status (mkdate 1970 1 1) (mkdate 1984 1 1) (mkdate 2020 1 1) =
  Ok (mkstatus (classify_passport_stage_text (Some 14))
        (Some (mkdate 1990 1 1)) (Some (mkdate 1990 4 1)) "invalid" None) /\
  sub_days (mkdate 1990 4 1) (mkdate 1990 1 1) = 90 /\
  gt (mkdate 2020 1 1) (mkdate 1990 4 1) = true.
Proof. repeat split; reflexivity. Qed.

(** C3 as stated fails on the deadline: the report does not carry
    1990-03-31, which is 89 days after 1990-01-01. *)
Lemma compute_status_example_1970_deadline :
  exists r,
    compute_status (mkdate 1970 1 1) (mkdate 1984 1 1) (mkdate 2020 1 1)
    = Ok r /\
    next_change r = Some (mkdate 1990 1 1) /\
    deadline r <> Some (mkdate 1990 3 31) /\
    sub_days (mkdate 1990 3 31) (mkdate 1990 1 1) = 89.
Proof.
  eexists. split; [reflexivity|]. cbn [next_change deadline].
  split; [reflexivity|]. split; [discriminate | reflexivity].
Qed.

Lemma toordinal_year_bound d :
  valid_date d -> toordinal d <= days_before_year (year d + 1).
Proof.
  intros (_ & Hm & Hd). unfold toordinal, ymd2ord.
  rewrite days_before_year_succ.
  pose proof (day_of_year_bounds _ _ _ Hm Hd).
  destruct (is_leap (year d)); lia.
Qed.

Lemma add_90_returns d :
  valid_date d -> year d < MAXYEAR -> returns (add_days d 90).
Proof.
  intros V Hy. apply add_days_returns; trivial; [lia|].
  pose proof (toordinal_year_bound d V).
  pose proof (days_before_year_mono (year d + 1) MAXYEAR ltac:(lia)) as M.
  change (days_before_year MAXYEAR) with 3651694 in M.
  unfold MAXORDINAL. lia.
Qed.

(** C4, as amended.  For every triple of dates whose birth date is
    well-formed with birth year + 45 below 9999, [compute_status] returns
    a report and raises nothing, the 29 February births included. *)
Theorem compute_status_returns birth issue today :
  valid_date birth -> year birth + 45 < MAXYEAR ->
  returns (compute_status birth issue today).
Proof.
  intros (Hy & _) H45. unfold MINYEAR, MAXYEAR in *.
  destruct (safe_add_years_returns birth 20) as [d20 E20];
    [unfold MINYEAR, MAXYEAR; lia|].
  destruct (safe_add_years_returns birth 45) as [d45 E45];
    [unfold MINYEAR, MAXYEAR; lia|].
  destruct (current_passport_stage_returns birth issue) as [stage Es];
    [unfold MAXYEAR; lia | unfold MINYEAR; lia |].
  unfold compute_status. rewrite E20, E45, Es. cbn [bind].
  apply safe_add_years_Ok in E20 as (V20 & Y20 & _).
  apply safe_add_years_Ok in E45 as (V45 & Y45 & _).
  assert (K : forall nc, valid_date nc -> year nc < MAXYEAR ->
    returns
      (deadline <- add_days nc 90 ;;
       (let '(status_kind, days_left) :=
          if gt today deadline then ("invalid", None)
          else if ge today nc then ("due", Some (sub_days deadline today))
          else ("ok", Some (sub_days nc today)) in
        Ok (mkstatus (classify_passport_stage_text stage) (Some nc)
              (Some deadline) status_kind days_left)))).
  { intros nc V Y. destruct (add_90_returns nc V Y) as [dl ->]. cbn [bind].
    destruct (gt today dl); [|destruct (ge today nc)]; eexists; reflexivity. }
  assert (K20 := K d20 V20 ltac:(unfold MAXYEAR; lia)).
  assert (K45 := K d45 V45 ltac:(unfold MAXYEAR; lia)).
  destruct (stage_eqb stage 45); [eexists; reflexivity|].
  destruct (stage_eqb stage 20); [exact K45|].
  destruct (stage_eqb stage 14); [exact K20|].
  destruct (lt today d20); [exact K20|].
  destruct (lt today d45); [exact K45|].
  eexists; reflexivity.
Qed.

Lemma compute_status_returns_witness :
  returns
    (compute_status (mkdate 2000 2 29) (mkdate 2014 3 10) (mkdate 2026 11 3)).
Proof.
  apply (compute_status_returns
           (mkdate 2000 2 29) (mkdate 2014 3 10) (mkdate 2026 11 3)).
  - apply checked_valid. reflexivity.
  - reflexivity.
Defined.

(** C4 as stated fails: these three dates are well-formed, but birth plus
    45 years is the year 10005 and [safe_add_years] raises
    [ValueError]. *)
Lemma compute_status_year_overflow :
  valid_date (mkdate 9960 1 1) /\ valid_date (mkdate 9980 1 1) /\
  valid_date (mkdate 9990 6 1) /\
  compute_status (mkdate 9960 1 1) (mkdate 9980 1 1) (mkdate 9990 6 1)
  = Raise ValueError.
Proof.
  repeat split; try (apply checked_valid; reflexivity); reflexivity.
Qed.


(** With birth + 45 years in 9999 the years are in range, but the deadline
    can pass 9999-12-31. *)
Example compute_status_deadline_overflow :
  compute_status (mkdate 9954 12 1) (mkdate 9980 1 1) (mkdate 9990 6 1)
  = Raise OverflowError.
Proof. reflexivity. Qed.

(** *** [validate_inputs] *)

(** C7, as amended.  When birth year + 14 is a year of the calendar,
    [validate_inputs] returns the messages of exactly the violated rules
    among its seven rules, in the order of the rules, each rule checked on
    its own; the two range rules compare with the module-level bounds
    [MAX_BIRTH] and [MAX_ISSUE].  Otherwise it raises [ValueError]. *)
Theorem validate_inputs_reports
  (relativedelta_years : date -> date -> Z) (MAX_BIRTH MAX_ISSUE : date)
  (birth issue today : date) :
  (MINYEAR <= year birth + 14 <= MAXYEAR ->
   exists d14,
     safe_add_years birth 14 = Ok d14 /\
     validate_inputs relativedelta_years MAX_BIRTH MAX_ISSUE
       birth issue today =
     Ok (messages (violations relativedelta_years MAX_BIRTH MAX_ISSUE
                     birth issue today d14))) /\
  (~ MINYEAR <= year birth + 14 <= MAXYEAR ->
   validate_inputs relativedelta_years MAX_BIRTH MAX_ISSUE
     birth issue today = Raise ValueError).
Proof.
  split; intros Hy.
  - destruct (safe_add_years_returns birth 14 Hy) as [d14 E].
    exists d14. split; [exact E|].
    unfold validate_inputs, violations, messages, append_if.
    rewrite E. cbn [bind]. rewrite !gt_lt.
    destruct (lt today birth), (lt today issue), (lt issue birth),
      (relativedelta_years today birth <? 14)%Z, (lt issue d14),
      (negb (le MIN_BIRTH birth && le birth MAX_BIRTH)),
      (negb (le MIN_ISSUE issue && le issue MAX_ISSUE)); reflexivity.
  - unfold validate_inputs. rewrite safe_add_years_raises by exact Hy.
    reflexivity.
Qed.

Lemma validate_inputs_reports_witness :
  validate_inputs elapsed_years (mkdate 2026 11 3) (mkdate 2026 11 3)
    (mkdate 2020 5 5) (mkdate 2019 1 1) (mkdate 2026 11 3)
  = Ok [err_issue_before_birth; err_under_14; err_issue_before_14].
Proof.
  destruct (proj1 (validate_inputs_reports elapsed_years
                     (mkdate 2026 11 3) (mkdate 2026 11 3)
                     (mkdate 2020 5 5) (mkdate 2019 1 1) (mkdate 2026 11 3)))
    as (d14 & E & H).
  - unfold MINYEAR, MAXYEAR; simpl; lia.
  - rewrite H. injection E as <-. reflexivity.
Defined.

(** C7 as stated fails in two ways.  For a birth date in 9990 the rules
    cannot be evaluated: [validate_inputs] raises [ValueError] instead of
    returning messages.  And when the module-level bound differs from
    today (the module was loaded the day before), a pair of dates that
    satisfies all seven rules against today still gets the range
    message. *)
Lemma validate_inputs_not_as_stated :
  validate_inputs elapsed_years (mkdate 9999 1 1) (mkdate 9999 1 1)
    (mkdate 9990 1 1) (mkdate 9995 1 1) (mkdate 9999 1 1)
  = Raise ValueError /\
  validate_inputs elapsed_years (mkdate 2024 12 31) (mkdate 2024 12 31)
    (mkdate 2000 1 1) (mkdate 2025 1 1) (mkdate 2025 1 1)
  = Ok [err_issue_range MIN_ISSUE (mkdate 2024 12 31)] /\
  messages (violations elapsed_years (mkdate 2025 1 1) (mkdate 2025 1 1)
              (mkdate 2000 1 1) (mkdate 2025 1 1) (mkdate 2025 1 1)
              (mkdate 2014 1 1)) = [].
Proof. repeat split; reflexivity. Qed.

End PassportFacts.

(** ** Compliance template tool *)

Module ComplianceFacts.

Import Compliance.

(** *** Ordering of the requested categories *)

Lemma contains_In keys k : contains keys k = true <-> In k keys.
Proof.
  unfold contains. rewrite existsb_exists. split.
  - intros (x & Hx & E). apply String.eqb_eq in E. now subst.
  - intros H. exists k. split; trivial. apply String.eqb_refl.
Qed.

Lemma contains_ext keys1 keys2 :
  (forall k, In k keys1 <-> In k keys2) ->
  forall k, contains keys1 k = contains keys2 k.
Proof.
  intros H k. apply eq_true_iff_eq. rewrite !contains_In. apply H.
Qed.

Lemma sort_by_priority_ext keys1 keys2 :
  (forall k, In k keys1 <-> In k keys2) ->
  sort_by_priority keys1 = sort_by_priority keys2.
Proof.
  intros H. unfold sort_by_priority. apply filter_ext.
  now apply contains_ext.
Qed.

(** *** Layout of the composed text *)

Lemma segment_defined lang r :
  In lang languages -> In r PRIORITY ->
  exists by_lang seg lead add final,
    getitem blocks r = Ok by_lang /\ getitem by_lang lang = Ok seg /\
    getitem seg "lead" = Ok lead /\ getitem seg "add" = Ok add /\
    getitem seg "final" = Ok final.
Proof.
  unfold languages, PRIORITY; simpl.
  intros [<- | [<- | []]] [<- | [<- | [<- | []]]];
    do 5 eexists; repeat split; reflexivity.
Qed.

Lemma sentence_choice {A : Type} (i : nat) (lead add final : A) :
  (if (Z.of_nat i =? 0)%Z then lead
   else if (Z.of_nat i =? 1)%Z then add else final) =
  match i with O => lead | S O => add | _ => final end.
Proof.
  destruct i as [|[|i]]; try reflexivity.
  destruct (Z.eqb_spec (Z.of_nat (S (S i))) 0); [lia|].
  destruct (Z.eqb_spec (Z.of_nat (S (S i))) 1); [lia|]. reflexivity.
Qed.

Lemma render_step lang r i :
  In lang languages -> In r PRIORITY ->
  exists b,
    block lang i r = Ok b /\
    forall ordered parts,
      render_loop lang (Z.of_nat i) (r :: ordered) parts =
      render_loop lang (Z.of_nat (S i)) ordered (parts ++ [b])%list.
Proof.
  intros Hl Hr.
  destruct (segment_defined lang r Hl Hr)
    as (by_lang & seg & lead & add & final & E1 & E2 & E3 & E4 & E5).
  exists (strip (match i with O => lead | S O => add | _ => final end
                 ++ get seg "rest" EmptyString)).
  split.
  - unfold block. rewrite E1; cbn [bind]. rewrite E2; cbn [bind].
    destruct i as [|[|i]]; cbn [sentence_key];
      [rewrite E3 | rewrite E4 | rewrite E5]; reflexivity.
  - intros ordered parts. cbn [render_loop].
    rewrite E1; cbn [bind]. rewrite E2; cbn [bind]. rewrite E3, E4, E5.
    rewrite (sentence_choice i (Ok lead) (Ok add) (Ok final)).
    replace (Z.of_nat i + 1) with (Z.of_nat (S i)) by lia.
    destruct i as [|[|i]]; reflexivity.
Qed.

Lemma render_loop_blocks lang :
  In lang languages ->
  forall ordered i parts,
    incl ordered PRIORITY ->
    exists bs,
      render_loop lang (Z.of_nat i) ordered parts = Ok (parts ++ bs)%list /\
      List.length bs = List.length ordered /\
      forall j r, nth_error ordered j = Some r ->
        exists b, block lang (i + j) r = Ok b /\ nth_error bs j = Some b.
Proof.
  intros Hl. induction ordered as [|r ordered IH]; intros i parts Hin.
  - exists []. rewrite app_nil_r. repeat split; trivial.
    intros [|j] r; discriminate.
  - destruct (render_step lang r i Hl (Hin r (or_introl eq_refl)))
      as (b & Hb & Step).
    destruct (IH (S i) (parts ++ [b])%list
                 (fun k Hk => Hin k (or_intror Hk)))
      as (bs & Hbs & Hlen & Hnth).
    exists (b :: bs). rewrite Step, Hbs, <- app_assoc. repeat split.
    + simpl. now rewrite Hlen.
    + intros [|j] r' Hj; cbn [nth_error] in *.
      * injection Hj as <-. rewrite Nat.add_0_r. eauto.
      * replace (i + S j)%nat with (S i + j)%nat by lia. exact (Hnth j r' Hj).
Qed.

Lemma sort_by_priority_incl reqs : incl (sort_by_priority reqs) PRIORITY.
Proof. intros k Hk. now apply filter_In in Hk. Qed.

(** C8.  The composed text depends only on the set of requested
    categories: two requests with the same elements, whatever their order
    and repetitions, give the same result; the categories present are
    taken in the fixed order SOF, ID, UB, the absent ones skipped, and
    that is the order of their blocks in the composed text: for a
    language of the tables the text is the layout of the intro, the block
    of each present category at its position in that order, and the
    closing; in particular [UB; SOF] and [SOF; UB] compose to the same
    text. *)
Theorem compose_depends_on_set lang reqs1 reqs2 :
  (forall k, In k reqs1 <-> In k reqs2) ->
  compose lang reqs1 = compose lang reqs2 /\
  sort_by_priority reqs1 = sort_by_priority reqs2 /\
  sort_by_priority reqs1 =
    ((if contains reqs1 "SOF" then ["SOF"%string] else []) ++
     (if contains reqs1 "ID" then ["ID"%string] else []) ++
     (if contains reqs1 "UB" then ["UB"%string] else []))%list /\
  compose lang ["UB"; "SOF"]%string = compose lang ["SOF"; "UB"]%string /\
  (In lang languages ->
   exists intro closing parts,
     getitem intro_texts lang = Ok intro /\
     getitem closing_texts lang = Ok closing /\
     compose lang reqs1 = Ok (layout intro parts closing) /\
     compose lang reqs2 = Ok (layout intro parts closing) /\
     List.length parts =
       List.length
         ((if contains reqs1 "SOF" then ["SOF"%string] else []) ++
          (if contains reqs1 "ID" then ["ID"%string] else []) ++
          (if contains reqs1 "UB" then ["UB"%string] else []))%list /\
     forall i r,
       nth_error
         ((if contains reqs1 "SOF" then ["SOF"%string] else []) ++
          (if contains reqs1 "ID" then ["ID"%string] else []) ++
          (if contains reqs1 "UB" then ["UB"%string] else []))%list i
       = Some r ->
       exists b, block lang i r = Ok b /\ nth_error parts i = Some b).
Proof.
  intros H. pose proof (sort_by_priority_ext _ _ H) as E.
  assert (Same : compose lang reqs1 = compose lang reqs2).
  { unfold compose, render_middle_adaptive. now rewrite E. }
  assert (Order : sort_by_priority reqs1 =
    ((if contains reqs1 "SOF" then ["SOF"%string] else []) ++
     (if contains reqs1 "ID" then ["ID"%string] else []) ++
     (if contains reqs1 "UB" then ["UB"%string] else []))%list).
  { unfold sort_by_priority, PRIORITY. cbn [filter].
    destruct (contains reqs1 "SOF"), (contains reqs1 "ID"),
      (contains reqs1 "UB"); reflexivity. }
  split; [exact Same|]. split; [exact E|]. split; [exact Order|].
  split; [reflexivity|].
  intros Hl. rewrite <- Order.
  destruct (render_loop_blocks lang Hl (sort_by_priority reqs1) 0 []
              (sort_by_priority_incl reqs1)) as (bs & Hbs & Hlen & Hnth).
  assert (T : exists intro closing,
             getitem intro_texts lang = Ok intro /\
             getitem closing_texts lang = Ok closing).
  { revert Hl. unfold languages; simpl.
    intros [<- | [<- | []]]; do 2 eexists; split; reflexivity. }
  destruct T as (intro & closing & Ei & Ec).
  assert (C1 : compose lang reqs1 = Ok (layout intro bs closing)).
  { unfold compose, render_middle_adaptive.
    change 0 with (Z.of_nat 0). rewrite Hbs. cbn [bind app].
    rewrite Ei, Ec. reflexivity. }
  exists intro, closing, bs.
  split; [exact Ei|]. split; [exact Ec|]. split; [exact C1|].
  split; [rewrite <- Same; exact C1|]. split; [exact Hlen|].
  exact Hnth.
Qed.

Lemma compose_depends_on_set_witness :
  compose "English" ["UB"; "ID"; "UB"]%string
  = compose "English" ["ID"; "UB"]%string.
Proof.
  apply (compose_depends_on_set "English"
           ["UB"; "ID"; "UB"]%string ["ID"; "UB"]%string).
  intros k; simpl; tauto.
Defined.

(** C9.  For a language of the tables, the composed text is the intro
    of the language, then one block per category of the priority-sorted
    request, then the closing of the language, joined by blank lines and
    trimmed; the block at 0-based position i is the lead sentence of its
    category when i = 0, the additional sentence when i = 1 and the final
    sentence when i >= 2, followed at once by the trailing text of the
    category, trimmed. *)
Theorem compose_layout lang reqs :
  In lang languages ->
  exists intro closing parts,
    getitem intro_texts lang = Ok intro /\
    getitem closing_texts lang = Ok closing /\
    List.length parts = List.length (sort_by_priority reqs) /\
    (forall i r, nth_error (sort_by_priority reqs) i = Some r ->
       exists b, block lang i r = Ok b /\ nth_error parts i = Some b) /\
    compose lang reqs = Ok (layout intro parts closing).
Proof.
  intros Hl.
  destruct (render_loop_blocks lang Hl (sort_by_priority reqs) 0 []
              (sort_by_priority_incl reqs)) as (bs & Hbs & Hlen & Hnth).
  assert (T : exists intro closing,
             getitem intro_texts lang = Ok intro /\
             getitem closing_texts lang = Ok closing).
  { revert Hl. unfold languages; simpl.
    intros [<- | [<- | []]]; do 2 eexists; split; reflexivity. }
  destruct T as (intro & closing & Ei & Ec).
  exists intro, closing, bs. repeat split; trivial.
  unfold compose, render_middle_adaptive.
  change 0 with (Z.of_nat 0). rewrite Hbs. cbn [bind app].
  rewrite Ei, Ec. reflexivity.
Qed.

Lemma compose_layout_witness :
  exists intro closing parts,
    getitem intro_texts "English" = Ok intro /\
    getitem closing_texts "English" = Ok closing /\
    List.length parts = 1%nat /\
    compose "English" ["ID"]%string = Ok (layout intro parts closing).
Proof.
  destruct (compose_layout "English" ["ID"]%string)
    as (intro & closing & parts & Ei & Ec & Hlen & _ & Hc).
  - simpl; auto.
  - exists intro, closing, parts. auto.
Defined.


(** *** [js_escape] *)

Local Open Scope string_scope.

Lemma append_assoc (a b c : string) : (a ++ b) ++ c = a ++ (b ++ c).
Proof. induction a; simpl; congruence. Qed.

Lemma map_chars_app f s t :
  map_chars f (s ++ t) = map_chars f s ++ map_chars f t.
Proof.
  induction s as [|c s IH]; simpl; trivial.
  rewrite IH. symmetry. apply append_assoc.
Qed.

Lemma occurs_app a s t : occurs a (s ++ t) = occurs a s || occurs a t.
Proof.
  induction s as [|c s IH]; simpl; trivial. rewrite IH.
  now destruct (Ascii.eqb a c).
Qed.

Lemma occurs_map_chars a f s :
  (forall c, occurs a (f c) = false) -> occurs a (map_chars f s) = false.
Proof.
  intros H. induction s as [|c s IH]; simpl; trivial.
  now rewrite occurs_app, H, IH.
Qed.

(** Replacing a one-character pattern is a character-wise map. *)
Lemma replace_char a new s :
  replace s (String a EmptyString) new =
  map_chars (fun c => if Ascii.eqb a c then new else String c EmptyString) s.
Proof.
  unfold replace. induction s as [|c s IH]; simpl; trivial.
  destruct (ascii_dec a c) as [->|N].
  - rewrite Ascii.eqb_refl.
    replace (prefix EmptyString s) with true by (now destruct s).
    now rewrite IH.
  - apply Ascii.eqb_neq in N. rewrite N. simpl. now rewrite IH.
Qed.

(** The three cases of replacing the two-character pattern. *)
Lemma replace_pair_hit a b new s :
  replace (String a (String b s)) (String a (String b EmptyString)) new =
  new ++ replace s (String a (String b EmptyString)) new.
Proof.
  unfold replace. simpl.
  destruct (ascii_dec a a) as [_|N]; [|now destruct N].
  destruct (ascii_dec b b) as [_|N]; [|now destruct N].
  replace (prefix EmptyString s) with true by (now destruct s).
  reflexivity.
Qed.

Lemma replace_pair_miss_head a b new c s :
  c <> a ->
  replace (String c s) (String a (String b EmptyString)) new =
  String c (replace s (String a (String b EmptyString)) new).
Proof.
  intros N. unfold replace. simpl.
  destruct (ascii_dec a c) as [E|_]; [now destruct N|]. reflexivity.
Qed.

Lemma replace_pair_miss_next a b new c s :
  prefix (String b EmptyString) s = false ->
  replace (String c s) (String a (String b EmptyString)) new =
  String c (replace s (String a (String b EmptyString)) new).
Proof.
  intros N. unfold replace. cbn [replace_from].
  assert (P : prefix (String a (String b EmptyString)) (String c s) = false).
  { cbn [prefix]. destruct (ascii_dec a c); [exact N | reflexivity]. }
  now rewrite P.
Qed.

Lemma map_chars_compose f g s :
  map_chars g (map_chars f s) = map_chars (fun c => map_chars g (f c)) s.
Proof.
  induction s as [|c s IH]; cbn [map_chars]; trivial.
  now rewrite map_chars_app, IH.
Qed.

Lemma map_chars_ext f g s :
  (forall c, f c = g c) -> map_chars f s = map_chars g s.
Proof.
  intros H. induction s as [|c s IH]; cbn [map_chars]; trivial.
  now rewrite H, IH.
Qed.

Lemma js_escape_maps s : js_escape s = escape_maps s.
Proof.
  unfold js_escape, escape_maps, backslash, backtick, cr, nl.
  rewrite !replace_char, !map_chars_compose.
  rewrite (map_chars_ext _ quote_char s).
  - apply map_chars_ext.
    intros c. unfold line_char, backslash, cr, nl.
    rewrite (Ascii.eqb_sym c "013"), (Ascii.eqb_sym c "010").
    destruct (Ascii.eqb_spec "013" c) as [<-|]; [reflexivity|].
    cbn [map_chars]. destruct (Ascii.eqb "010" c); reflexivity.
  - intros c. unfold quote_char, backslash, backtick.
    rewrite (Ascii.eqb_sym c "092"), (Ascii.eqb_sym c "096").
    destruct (Ascii.eqb_spec "092" c) as [<-|]; [reflexivity|].
    cbn [map_chars]. destruct (Ascii.eqb "096" c); reflexivity.
Qed.


Lemma escape_maps_cons_plain c s :
  quote_char c = String c EmptyString -> c <> "$"%char ->
  escape_maps (String c s) = line_char c ++ escape_maps s.
Proof.
  intros Q N. unfold escape_maps. cbn [map_chars]. rewrite Q.
  cbn [append]. rewrite replace_pair_miss_head by exact N.
  reflexivity.
Qed.

Lemma escape_maps_cons_quoted c s :
  (c = "092" \/ c = "096")%char ->
  escape_maps (String c s) = backslash ++ String c EmptyString ++ escape_maps s.
Proof.
  intros [-> | ->]; unfold escape_maps; cbn [map_chars];
    unfold quote_char, backslash, backtick; cbn [Ascii.eqb Bool.eqb append];
    rewrite !replace_pair_miss_head by discriminate; reflexivity.
Qed.

Lemma escape_maps_dollar_brace s :
  escape_maps (String "$" (String "{" s)) =
  backslash ++ "${" ++ escape_maps s.
Proof.
  unfold escape_maps. cbn [map_chars].
  change (quote_char "$") with "$". change (quote_char "{") with "{".
  cbn [append]. rewrite replace_pair_hit, map_chars_app. reflexivity.
Qed.

Lemma quoted_prefix s :
  prefix "{" s = false -> prefix "{" (map_chars quote_char s) = false.
Proof.
  destruct s as [|c s]; trivial. cbn [map_chars prefix].
  unfold quote_char.
  destruct (Ascii.eqb_spec c "092") as [->|]; [reflexivity|].
  destruct (Ascii.eqb_spec c "096") as [->|]; [reflexivity|].
  cbn [append prefix]. destruct (ascii_dec "{" c); trivial.
  intros H. now destruct s.
Qed.

Lemma escape_maps_dollar_other s :
  prefix "{" s = false ->
  escape_maps (String "$" s) = String "$" (escape_maps s).
Proof.
  intros N. unfold escape_maps. cbn [map_chars].
  change (quote_char "$") with "$". cbn [append].
  rewrite replace_pair_miss_next by now apply quoted_prefix.
  reflexivity.
Qed.

Lemma escape_scan_cons c s :
  escape_maps s = escape_scan s ->
  (forall c' s'', s = String c' s'' -> escape_maps s'' = escape_scan s'') ->
  escape_maps (String c s) = escape_scan (String c s).
Proof.
  intros IH IH2. cbn [escape_scan].
  destruct (Ascii.eqb_spec c "092") as [->|N1].
  { rewrite escape_maps_cons_quoted by auto. now rewrite IH. }
  destruct (Ascii.eqb_spec c "096") as [->|N2].
  { rewrite escape_maps_cons_quoted by auto. now rewrite IH. }
  destruct (Ascii.eqb_spec c "$") as [->|N3].
  { destruct s as [|c' s''].
    - now rewrite escape_maps_dollar_other, IH.
    - destruct (Ascii.eqb_spec c' "{") as [->|N4].
      + rewrite escape_maps_dollar_brace. now rewrite (IH2 _ _ eq_refl).
      + rewrite escape_maps_dollar_other, IH; trivial.
        cbn [prefix]. destruct (ascii_dec "{" c'); congruence. }
  rewrite escape_maps_cons_plain, IH; trivial.
  - unfold line_char.
    destruct (Ascii.eqb c "013"); [reflexivity|].
    destruct (Ascii.eqb c "010"); reflexivity.
  - unfold quote_char.
    apply Ascii.eqb_neq in N1, N2. now rewrite N1, N2.
Qed.

Lemma escape_maps_scan s : escape_maps s = escape_scan s.
Proof.
  enough (H : escape_maps s = escape_scan s /\
              forall c, escape_maps (String c s) = escape_scan (String c s))
    by apply H.
  induction s as [|c' s [IH1 IH2]].
  - split; [reflexivity|]. intros c. apply escape_scan_cons; [reflexivity|].
    discriminate.
  - split; [apply IH2|]. intros c. apply escape_scan_cons; [apply IH2|].
    intros ? ? [= <- <-]. exact IH1.
Qed.

Lemma line_char_clean a c :
  (a = "013" \/ a = "010")%char -> occurs a (line_char c) = false.
Proof.
  intros Ha. unfold line_char.
  destruct (Ascii.eqb_spec c "013") as [->|N1]; [reflexivity|].
  destruct (Ascii.eqb_spec c "010") as [->|N2].
  - destruct Ha as [-> | ->]; reflexivity.
  - cbn [occurs]. rewrite orb_false_r. apply Ascii.eqb_neq.
    destruct Ha as [-> | ->]; congruence.
Qed.

(** C10.  [js_escape] escapes as one pass over the input does: each
    backslash, backtick and "${" of the input gets a backslash in front,
    each carriage return is dropped, each newline becomes backslash and n,
    and the backslashes put in are not escaped again; the result holds no
    carriage return and no newline. *)
Theorem js_escape_scan s :
  js_escape s = escape_scan s /\
  occurs "013" (js_escape s) = false /\
  occurs "010" (js_escape s) = false.
Proof.
  split; [|split].
  - now rewrite js_escape_maps, escape_maps_scan.
  - rewrite js_escape_maps. apply occurs_map_chars.
    intros c. apply line_char_clean. auto.
  - rewrite js_escape_maps. apply occurs_map_chars.
    intros c. apply line_char_clean. auto.
Qed.

Example js_escape_sample :
  js_escape ("a`b\c${d" ++ nl ++ "e$${" ++ cr ++ "f") =
  "a\`b\\c\${d\ne$\${f".
Proof. reflexivity. Qed.

(** A carriage return between "$" and "{" is dropped after the pattern
    was looked for, so the two end up adjacent and unescaped. *)
Example js_escape_dollar_cr_brace :
  js_escape ("$" ++ cr ++ "{") = "${".
Proof. reflexivity. Qed.

End ComplianceFacts.

(** ** Passport tool: further properties *)

Import PassportFacts.

Module PassportMore.

Import Passport.

(** *** More on [safe_add_years] *)

(** X1.  For a year count that keeps [year d + N] within the range of a
    C int, [safe_add_years] returns exactly when the target year is a
    year of the calendar, 1..9999, and the only exception it lets through
    is [ValueError]. *)
Theorem safe_add_years_returns_iff d N :
  C_INT_MIN <= year d + N <= C_INT_MAX ->
  (returns (safe_add_years d N) <-> MINYEAR <= year d + N <= MAXYEAR) /\
  (forall e, safe_add_years d N = Raise e -> e = ValueError).
Proof.
  intros _. split; [split|].
  - intros [r E].
    destruct (Z_le_dec MINYEAR (year d + N)), (Z_le_dec (year d + N) MAXYEAR);
      try lia.
    all: rewrite safe_add_years_raises in E by lia; discriminate.
  - apply safe_add_years_returns.
  - intros e E.
    destruct (Z_le_dec MINYEAR (year d + N)), (Z_le_dec (year d + N) MAXYEAR).
    + destruct (safe_add_years_returns d N) as [r R]; [lia|]. congruence.
    + rewrite safe_add_years_raises in E by lia. congruence.
    + rewrite safe_add_years_raises in E by lia. congruence.
    + rewrite safe_add_years_raises in E by lia. congruence.
Qed.

Lemma safe_add_years_returns_iff_witness :
  returns (safe_add_years (mkdate 1990 5 17) 45).
Proof.
  apply (proj1 (safe_add_years_returns_iff (mkdate 1990 5 17) 45
                  ltac:(unfold C_INT_MIN, C_INT_MAX; simpl; lia))).
  unfold MINYEAR, MAXYEAR; simpl; lia.
Defined.

Lemma days_in_month_other y1 y2 m :
  m <> 2 -> days_in_month y1 m = days_in_month y2 m.
Proof.
  intros N. unfold days_in_month.
  now replace (m =? 2) with false by lia.
Qed.

Lemma days_in_february y :
  days_in_month y 2 = if is_leap y then 29 else 28.
Proof. unfold days_in_month. simpl. now destruct (is_leap y). Qed.

Lemma safe_add_years_value d N :
  valid_date d -> MINYEAR <= year d + N <= MAXYEAR ->
  safe_add_years d N =
  Ok (if (month d =? 2) && (day d =? 29) && negb (is_leap (year d + N))
      then mkdate (year d + N) 2 28
      else mkdate (year d + N) (month d) (day d)).
Proof.
  intros (Hy & Hm & Hd) HN.
  unfold safe_add_years, PyDate.replace; cbn [from_option].
  destruct ((month d =? 2) && (day d =? 29) && negb (is_leap (year d + N)))
    eqn:C.
  - apply andb_true_iff in C as [C L]. apply andb_true_iff in C as [M D].
    apply Z.eqb_eq in M, D. apply negb_true_iff in L.
    assert (E : check_date_fields (year d + N) (month d) (day d)
                = Raise ValueError).
    { unfold check_date_fields. rewrite M, D, days_in_february, L.
      replace ((MINYEAR <=? year d + N) && (year d + N <=? MAXYEAR))
        with true by lia.
      reflexivity. }
    rewrite E. cbn [try_except_ValueError].
    apply check_date_fields_valid.
    unfold valid_date; cbn [year month day].
    rewrite days_in_february, L. lia.
  - rewrite check_date_fields_valid; [reflexivity|].
    unfold valid_date; cbn [year month day]. repeat split; try lia.
    destruct (Z.eq_dec (month d) 2) as [M|M].
    + rewrite M in *. rewrite days_in_february in *.
      destruct (is_leap (year d + N)); [destruct (is_leap (year d)); lia|].
      replace (2 =? 2) with true in C by reflexivity. cbn in C.
      destruct (Z.eqb_spec (day d) 29); [discriminate|].
      destruct (is_leap (year d)); lia.
    + rewrite (days_in_month_other _ (year d)); trivial. lia.
Qed.

(** X2.  On a well-formed date, with the target year in 1..9999,
    [safe_add_years] keeps the month and the day and sets the year to
    [year d + N]; the one exception is 29 February with a target year
    that is not a leap year, which gives 28 February.  The result is a
    well-formed date. *)
Theorem safe_add_years_keeps_month_day d N :
  valid_date d -> MINYEAR <= year d + N <= MAXYEAR ->
  exists r,
    safe_add_years d N = Ok r /\ valid_date r /\ year r = year d + N /\
    (month d = 2 /\ day d = 29 /\ is_leap (year d + N) = false ->
     month r = 2 /\ day r = 28) /\
    (~ (month d = 2 /\ day d = 29 /\ is_leap (year d + N) = false) ->
     month r = month d /\ day r = day d).
Proof.
  intros V HN. pose proof (safe_add_years_value d N V HN) as E.
  eexists. split; [exact E|].
  pose proof (safe_add_years_Ok _ _ _ E) as (Vr & Yr & _).
  split; [exact Vr|]. split; [exact Yr|].
  destruct ((month d =? 2) && (day d =? 29) && negb (is_leap (year d + N)))
    eqn:C; cbn [month day].
  - split; [auto|]. intros H. exfalso. apply H.
    apply andb_true_iff in C as [C L]. apply andb_true_iff in C as [M D].
    apply Z.eqb_eq in M, D. apply negb_true_iff in L. auto.
  - split; [|auto]. intros (M & D & L). rewrite M, D, L in C. discriminate.
Qed.

Lemma safe_add_years_keeps_month_day_witness :
  exists r, safe_add_years (mkdate 2004 2 29) 20 = Ok r /\
            month r = 2 /\ day r = 29.
Proof.
  destruct (safe_add_years_keeps_month_day (mkdate 2004 2 29) 20)
    as (r & E & _ & _ & _ & H).
  - apply checked_valid. reflexivity.
  - unfold MINYEAR, MAXYEAR; simpl; lia.
  - exists r. split; [exact E|]. apply H. simpl. intros (_ & _ & L).
    discriminate.
Defined.


Lemma safe_add_years_in_range d N r :
  safe_add_years d N = Ok r -> MINYEAR <= year d + N <= MAXYEAR.
Proof.
  intros E. apply safe_add_years_Ok in E as ((Hy & _) & Y & _). lia.
Qed.

(** X3.  [safe_add_years] keeps the order of dates: of two well-formed
    dates, the earlier one (or the same) never gets the later result. *)
Theorem safe_add_years_monotone d1 d2 N r1 r2 :
  valid_date d1 -> valid_date d2 -> le d1 d2 = true ->
  safe_add_years d1 N = Ok r1 -> safe_add_years d2 N = Ok r2 ->
  le r1 r2 = true.
Proof.
  intros V1 V2 Hle E1 E2.
  rewrite (safe_add_years_value d1 N V1 (safe_add_years_in_range _ _ _ E1))
    in E1.
  rewrite (safe_add_years_value d2 N V2 (safe_add_years_in_range _ _ _ E2))
    in E2.
  injection E1 as <-. injection E2 as <-.
  rewrite le_lt in *. apply negb_true_iff in Hle. apply negb_true_iff.
  apply lt_not_before in Hle. apply lt_not_before.
  destruct V1 as (_ & M1 & D1), V2 as (_ & M2 & D2).
  pose proof (days_in_month_bounds (year d1) (month d1) M1).
  pose proof (days_in_month_bounds (year d2) (month d2) M2).
  destruct (Z.eq_dec (year d1) (year d2)) as [Y|Y].
  - rewrite Y in *.
    destruct (is_leap (year d2 + N));
      destruct (Z.eqb_spec (month d1) 2), (Z.eqb_spec (day d1) 29),
        (Z.eqb_spec (month d2) 2), (Z.eqb_spec (day d2) 29);
      cbn [andb negb]; unfold before in *; cbn [year month day]; lia.
  - destruct ((month d1 =? 2) && (day d1 =? 29)
              && negb (is_leap (year d1 + N))),
      ((month d2 =? 2) && (day d2 =? 29) && negb (is_leap (year d2 + N)));
      unfold before in *; cbn [year month day]; lia.
Qed.

Lemma safe_add_years_monotone_witness :
  le (mkdate 2014 2 28) (mkdate 2014 3 1) = true.
Proof.
  apply (safe_add_years_monotone (mkdate 2000 2 29) (mkdate 2000 3 1) 14);
    try reflexivity; apply checked_valid; reflexivity.
Defined.


(** *** More on [validate_inputs] *)

Section ValidateMore.

Variable relativedelta_years : date -> date -> Z.
Variables MAX_BIRTH MAX_ISSUE : date.


Lemma validate_inputs_messages birth issue today d14 :
  safe_add_years birth 14 = Ok d14 ->
  validate_inputs relativedelta_years MAX_BIRTH MAX_ISSUE
    birth issue today = Ok (messages (violations relativedelta_years MAX_BIRTH MAX_ISSUE
              birth issue today d14)).
Proof.
  intros E. unfold validate_inputs, violations, messages, append_if.
  rewrite E. cbn [bind]. rewrite !gt_lt.
  destruct (lt today birth), (lt today issue), (lt issue birth),
    (relativedelta_years today birth <? 14), (lt issue d14),
    (negb (le MIN_BIRTH birth && le birth MAX_BIRTH)),
    (negb (le MIN_ISSUE issue && le issue MAX_ISSUE)); reflexivity.
Qed.

Lemma validate_inputs_Ok birth issue today errs :
  validate_inputs relativedelta_years MAX_BIRTH MAX_ISSUE
    birth issue today = Ok errs ->
  exists d14,
    safe_add_years birth 14 = Ok d14 /\
    errs = messages (violations relativedelta_years MAX_BIRTH MAX_ISSUE
              birth issue today d14).
Proof.
  intros H. destruct (safe_add_years birth 14) as [d14|e] eqn:E.
  - rewrite (validate_inputs_messages _ _ _ _ E) in H. injection H as <-.
    eauto.
  - unfold validate_inputs in H. rewrite E in H. discriminate.
Qed.

Lemma messages_nil (f1 f2 f3 f4 f5 f6 f7 : bool) (m1 m2 m3 m4 m5 m6 m7 : string) :
  messages [(f1, m1); (f2, m2); (f3, m3); (f4, m4); (f5, m5); (f6, m6);
            (f7, m7)] = [] <->
  f1 = false /\ f2 = false /\ f3 = false /\ f4 = false /\ f5 = false /\
  f6 = false /\ f7 = false.
Proof.
  destruct f1, f2, f3, f4, f5, f6, f7; cbn; split;
    try discriminate; try tauto; intros H; decompose [and] H; discriminate.
Qed.

Lemma validate_inputs_nil_facts birth issue today :
  validate_inputs relativedelta_years MAX_BIRTH MAX_ISSUE
    birth issue today = Ok [] ->
  exists d14,
    safe_add_years birth 14 = Ok d14 /\
    le birth today = true /\ le issue today = true /\
    le birth issue = true /\ 14 <= relativedelta_years today birth /\
    le d14 issue = true /\
    (le MIN_BIRTH birth = true /\ le birth MAX_BIRTH = true) /\
    (le MIN_ISSUE issue = true /\ le issue MAX_ISSUE = true).
Proof.
  intros H. apply validate_inputs_Ok in H as (d14 & E & H).
  exists d14. split; [exact E|].
  symmetry in H. unfold violations in H. apply messages_nil in H.
  destruct H as (H1 & H2 & H3 & H4 & H5 & H6 & H7).
  apply negb_false_iff, andb_true_iff in H6, H7.
  rewrite (le_lt birth today), (le_lt issue today), (le_lt birth issue),
    (le_lt d14 issue), H1, H2, H3, H5.
  repeat split; try tauto. lia.
Qed.

(** X4.  [validate_inputs] returns no message exactly when birth plus 14
    years exists and all seven conditions hold: birth and issue not after
    today, issue not before birth, at least 14 whole years from birth to
    today, issue not before birth plus 14 years, and birth and issue
    within their bounds. *)
Theorem validate_inputs_accepts birth issue today :
  validate_inputs relativedelta_years MAX_BIRTH MAX_ISSUE
    birth issue today = Ok [] <->
  exists d14,
    safe_add_years birth 14 = Ok d14 /\
    le birth today = true /\ le issue today = true /\
    le birth issue = true /\ 14 <= relativedelta_years today birth /\
    le d14 issue = true /\
    (le MIN_BIRTH birth = true /\ le birth MAX_BIRTH = true) /\
    (le MIN_ISSUE issue = true /\ le issue MAX_ISSUE = true).
Proof.
  split; [apply validate_inputs_nil_facts|].
  intros (d14 & E & H1 & H2 & H3 & H4 & H5 & [H6 H6'] & [H7 H7']).
  rewrite (validate_inputs_messages _ _ _ _ E). f_equal.
  unfold violations. apply messages_nil.
  rewrite H6, H6', H7, H7'. rewrite le_lt in H1, H2, H3, H5.
  apply negb_true_iff in H1, H2, H3, H5.
  repeat split; trivial. lia.
Qed.

End ValidateMore.

Lemma validate_inputs_accepts_witness :
  validate_inputs elapsed_years (mkdate 2026 11 3) (mkdate 2026 11 3)
    (mkdate 1990 1 1) (mkdate 2010 1 1) (mkdate 2026 11 3) = Ok [].
Proof.
  apply (proj2 (validate_inputs_accepts elapsed_years
                  (mkdate 2026 11 3) (mkdate 2026 11 3)
                  (mkdate 1990 1 1) (mkdate 2010 1 1) (mkdate 2026 11 3))).
  exists (mkdate 2004 1 1). repeat split; try reflexivity.
  unfold elapsed_years; simpl; lia.
Defined.


Lemma current_passport_stage_Ok birth issue stage :
  current_passport_stage birth issue = Ok stage ->
  exists d14 d20 d45,
    safe_add_years birth 14 = Ok d14 /\
    safe_add_years birth 20 = Ok d20 /\
    safe_add_years birth 45 = Ok d45 /\
    stage = (if ge issue d45 then Some 45
             else if ge issue d20 then Some 20
             else if ge issue d14 then Some 14
             else None).
Proof.
  intros H.
  destruct (safe_add_years birth 14) as [d14|] eqn:E14;
    [|unfold current_passport_stage in H; rewrite E14 in H; discriminate].
  destruct (safe_add_years birth 20) as [d20|] eqn:E20;
    [|unfold current_passport_stage in H; rewrite E14, E20 in H;
      discriminate].
  destruct (safe_add_years birth 45) as [d45|] eqn:E45;
    [|unfold current_passport_stage in H; rewrite E14, E20, E45 in H;
      discriminate].
  rewrite (current_passport_stage_eq _ issue _ _ _ E14 E20 E45) in H.
  injection H as <-. exists d14, d20, d45. auto.
Qed.

Lemma validated_stage_shape
  (relativedelta_years : date -> date -> Z) (MAX_BIRTH MAX_ISSUE : date)
  (birth issue today : date) (stage : option Z) :
  validate_inputs relativedelta_years MAX_BIRTH MAX_ISSUE
    birth issue today = Ok [] ->
  current_passport_stage birth issue = Ok stage ->
  exists n, stage = Some n /\ (n = 14 \/ n = 20 \/ n = 45).
Proof.
  intros Hv Hs.
  apply validate_inputs_nil_facts in Hv as (d14 & E14 & _ & _ & _ & _ & H5 & _).
  apply current_passport_stage_Ok in Hs
    as (d14' & d20 & d45 & E14' & _ & _ & ->).
  rewrite E14 in E14'. injection E14' as <-.
  rewrite (ge_lt issue d14). rewrite le_lt in H5.
  apply negb_true_iff in H5. rewrite H5. cbn [negb].
  destruct (ge issue d45); [|destruct (ge issue d20)]; eauto.
Qed.

(** X5.  Once [validate_inputs] has returned no message, the stage that
    [current_passport_stage] finds is 14, 20 or 45, never the undetermined
    one, and its label is not the "could not determine" text. *)
Theorem validated_stage_known
  (relativedelta_years : date -> date -> Z) (MAX_BIRTH MAX_ISSUE : date)
  (birth issue today : date) (stage : option Z) :
  validate_inputs relativedelta_years MAX_BIRTH MAX_ISSUE
    birth issue today = Ok [] ->
  current_passport_stage birth issue = Ok stage ->
  (stage = Some 14 \/ stage = Some 20 \/ stage = Some 45) /\
  classify_passport_stage_text stage <> classify_passport_stage_text None.
Proof.
  intros Hv Hs.
  apply validate_inputs_nil_facts in Hv as (d14 & E14 & _ & _ & _ & _ & H5 & _).
  apply current_passport_stage_Ok in Hs
    as (d14' & d20 & d45 & E14' & _ & _ & ->).
  rewrite E14 in E14'. injection E14' as <-.
  rewrite (ge_lt issue d14). rewrite le_lt in H5.
  apply negb_true_iff in H5. rewrite H5. cbn [negb].
  destruct (ge issue d45); [|destruct (ge issue d20)];
    (split; [auto | discriminate]).
Qed.

Lemma validated_stage_known_witness :
  classify_passport_stage_text (Some 20)
  <> classify_passport_stage_text None.
Proof.
  apply (validated_stage_known elapsed_years
           (mkdate 2026 11 3) (mkdate 2026 11 3)
           (mkdate 1990 1 1) (mkdate 2010 1 1) (mkdate 2026 11 3) (Some 20));
    reflexivity.
Defined.

Lemma In_messages m l : In m (messages l) <-> In (true, m) l.
Proof.
  unfold messages. rewrite in_map_iff. split.
  - intros ([f m'] & <- & H). apply filter_In in H as [H F].
    cbn in *. now subst.
  - intros H. exists (true, m). split; trivial. apply filter_In. auto.
Qed.

(** X6.  An issue date before the birth date is reported twice: whenever
    the message "issue before birth" is returned, the message "issued
    before the age of 14" is returned as well. *)
Theorem issue_before_birth_reported_twice
  (relativedelta_years : date -> date -> Z) (MAX_BIRTH MAX_ISSUE : date)
  (birth issue today : date) (errs : list string) :
  validate_inputs relativedelta_years MAX_BIRTH MAX_ISSUE
    birth issue today = Ok errs ->
  In err_issue_before_birth errs -> In err_issue_before_14 errs.
Proof.
  intros Hv Hin. apply validate_inputs_Ok in Hv as (d14 & E & ->).
  apply In_messages in Hin. apply In_messages.
  assert (L : lt issue birth = true).
  { unfold violations in Hin. cbn [In] in Hin.
    destruct Hin as [H|[H|[H|[H|[H|[H|[H|[]]]]]]]];
      apply pair_equal_spec in H as [F M]; trivial;
      unfold err_birth_range, err_issue_range in M; cbn [append] in M;
      discriminate M. }
  assert (L14 : lt issue d14 = true).
  { apply safe_add_years_Ok in E as (_ & Y & _). order_prop. }
  unfold violations. rewrite L14. cbn [In]. auto 8.
Qed.

Lemma issue_before_birth_reported_twice_witness :
  In err_issue_before_14
    [err_issue_before_birth; err_under_14; err_issue_before_14].
Proof.
  apply (issue_before_birth_reported_twice elapsed_years
           (mkdate 2026 11 3) (mkdate 2026 11 3)
           (mkdate 2020 5 5) (mkdate 2019 1 1) (mkdate 2026 11 3)).
  - reflexivity.
  - simpl; auto.
Defined.


(** *** More on [compute_status] *)

(** The date the classification is made against, as [compute_status]
    picks it from the stage, today being used only when the stage is
    undetermined. *)
Lemma compute_status_cases birth issue today r :
  compute_status birth issue today = Ok r ->
  exists d20 d45 stage,
    safe_add_years birth 20 = Ok d20 /\
    safe_add_years birth 45 = Ok d45 /\
    current_passport_stage birth issue = Ok stage /\
    stage_label r = classify_passport_stage_text stage /\
    next_change r =
      (if stage_eqb stage 45 then None
       else if stage_eqb stage 20 then Some d45
       else if stage_eqb stage 14 then Some d20
       else if lt today d20 then Some d20
       else if lt today d45 then Some d45
       else None) /\
    match next_change r with
    | None =>
        status_kind r = "no_more"%string /\ deadline r = None /\
        days_left r = None
    | Some nc =>
        exists dl,
          add_days nc 90 = Ok dl /\ deadline r = Some dl /\
          (status_kind r, days_left r) =
          if gt today dl then ("invalid"%string, None)
          else if ge today nc
               then ("due"%string, Some (sub_days dl today))
               else ("ok"%string, Some (sub_days nc today))
    end.
Proof.
  unfold compute_status.
  destruct (safe_add_years birth 20) as [d20|] eqn:E20; [|discriminate].
  destruct (safe_add_years birth 45) as [d45|] eqn:E45; [|discriminate].
  destruct (current_passport_stage birth issue) as [stage|]; [|discriminate].
  cbn [bind]. intros H. exists d20, d45, stage.
  do 3 (split; [reflexivity|]).
  assert (K : forall nc,
    (deadline <- add_days nc 90 ;;
     (let '(status_kind, days_left) :=
        if gt today deadline then ("invalid"%string, None)
        else if ge today nc
             then ("due"%string, Some (sub_days deadline today))
             else ("ok"%string, Some (sub_days nc today)) in
      Ok (mkstatus (classify_passport_stage_text stage) (Some nc)
            (Some deadline) status_kind days_left))) = Ok r ->
    stage_label r = classify_passport_stage_text stage /\
    next_change r = Some nc /\
    exists dl,
      add_days nc 90 = Ok dl /\ deadline r = Some dl /\
      (status_kind r, days_left r) =
      if gt today dl then ("invalid"%string, None)
      else if ge today nc then ("due"%string, Some (sub_days dl today))
      else ("ok"%string, Some (sub_days nc today))).
  { intros nc. destruct (add_days nc 90) as [dl|]; [|discriminate].
    cbn [bind]. intros G.
    destruct (gt today dl) eqn:A; [|destruct (ge today nc) eqn:B];
      injection G as <-; (split; [reflexivity|]); (split; [reflexivity|]);
      exists dl; cbn; rewrite A, ?B; auto. }
  destruct (stage_eqb stage 45).
  { injection H as <-. cbn. auto. }
  destruct (stage_eqb stage 20).
  { apply K in H as (L & N & D). rewrite N. auto. }
  destruct (stage_eqb stage 14).
  { apply K in H as (L & N & D). rewrite N. auto. }
  destruct (lt today d20).
  { apply K in H as (L & N & D). rewrite N. auto. }
  destruct (lt today d45).
  { apply K in H as (L & N & D). rewrite N. auto. }
  injection H as <-. cbn. auto.
Qed.

Lemma deadline_after nc dl :
  valid_date nc -> add_days nc 90 = Ok dl -> lt nc dl = true.
Proof.
  intros V E. apply add_days_Ok in E as [Vd T]; trivial.
  apply lt_toordinal; trivial. lia.
Qed.

Lemma stage_values birth issue stage :
  current_passport_stage birth issue = Ok stage ->
  stage = None \/ stage = Some 14 \/ stage = Some 20 \/ stage = Some 45.
Proof.
  intros H. apply current_passport_stage_Ok in H as (? & ? & ? & _ & _ & _ & ->).
  destruct (ge issue _); [|destruct (ge issue _); [|destruct (ge issue _)]];
    auto.
Qed.

(** X7.  When the stage is undetermined, the estimate by age never
    reports a passport as due or invalid: the status is "ok" or
    "no_more". *)
Theorem undetermined_stage_never_due birth issue today r :
  current_passport_stage birth issue = Ok None ->
  compute_status birth issue today = Ok r ->
  status_kind r = "ok"%string \/ status_kind r = "no_more"%string.
Proof.
  intros Hs H.
  apply compute_status_cases in H
    as (d20 & d45 & stage & E20 & E45 & Es & _ & N & C).
  rewrite Hs in Es. injection Es as <-. cbn [stage_eqb] in N.
  apply safe_add_years_Ok in E20 as (V20 & _).
  apply safe_add_years_Ok in E45 as (V45 & _).
  assert (K : forall nc, valid_date nc -> lt today nc = true ->
    (exists dl,
        add_days nc 90 = Ok dl /\ deadline r = Some dl /\
        (status_kind r, days_left r) =
        if gt today dl then ("invalid"%string, None)
        else if ge today nc then ("due"%string, Some (sub_days dl today))
        else ("ok"%string, Some (sub_days nc today))) ->
    status_kind r = "ok"%string).
  { intros nc V L (dl & Ea & _ & Hk).
    pose proof (deadline_after nc dl V Ea) as D.
    assert (G : gt today dl = false) by (clear Hk; order_prop).
    rewrite G, ge_lt, L in Hk. cbn in Hk. now injection Hk. }
  destruct (lt today d20) eqn:L20.
  { rewrite N in C. left. eauto. }
  destruct (lt today d45) eqn:L45.
  { rewrite N in C. left. eauto. }
  rewrite N in C. right. tauto.
Qed.

Lemma undetermined_stage_never_due_witness :
  exists r,
    compute_status (mkdate 1990 1 1) (mkdate 2000 1 1) (mkdate 2012 3 4)
    = Ok r /\
    (status_kind r = "ok"%string \/ status_kind r = "no_more"%string).
Proof.
  eexists. split; [reflexivity|].
  apply (undetermined_stage_never_due
           (mkdate 1990 1 1) (mkdate 2000 1 1) (mkdate 2012 3 4));
    reflexivity.
Defined.


(** X8.  In a "due" report [days_left] counts down the 90 days of grace:
    it lies between 0 and 90, and the days gone since [next_change] plus
    [days_left] make 90. *)
Theorem due_days_left_within_90 birth issue today r :
  valid_date today ->
  compute_status birth issue today = Ok r ->
  status_kind r = "due"%string ->
  exists nc n,
    next_change r = Some nc /\ days_left r = Some n /\
    0 <= n <= 90 /\ sub_days today nc + n = 90.
Proof.
  intros Vt H Hk. apply compute_status_Ok in H
    as [(_ & _ & K & _) | (nc & dl & V & Ea & Hn & Hd & Hc)].
  { rewrite K in Hk. discriminate. }
  pose proof (add_days_Ok _ _ _ V Ea) as [Vd T].
  exists nc, (sub_days dl today). split; [exact Hn|].
  destruct (gt today dl) eqn:A.
  { injection Hc as K _. rewrite K in Hk. discriminate. }
  destruct (ge today nc) eqn:B.
  2:{ injection Hc as K _. rewrite K in Hk. discriminate. }
  injection Hc as _ ->. split; [reflexivity|].
  rewrite gt_lt in A. rewrite ge_lt in B. apply negb_true_iff in B.
  pose proof (lt_toordinal dl today Vd Vt) as O1.
  pose proof (lt_toordinal today nc Vt V) as O2.
  unfold sub_days.
  destruct (Z_lt_dec (toordinal dl) (toordinal today)) as [L|L];
    [apply O1 in L; congruence|].
  destruct (Z_lt_dec (toordinal today) (toordinal nc)) as [L'|L'];
    [apply O2 in L'; congruence|].
  lia.
Qed.

Lemma due_days_left_within_90_witness :
  exists nc n,
    Some (mkdate 2010 1 1) = Some nc /\ Some 59 = Some n /\
    0 <= n <= 90 /\ sub_days (mkdate 2010 2 1) nc + n = 90.
Proof.
  apply (due_days_left_within_90
           (mkdate 1990 1 1) (mkdate 2004 6 1) (mkdate 2010 2 1)
           (mkstatus (classify_passport_stage_text (Some 14))
              (Some (mkdate 2010 1 1)) (Some (mkdate 2010 4 1))
              "due" (Some 59))).
  - apply checked_valid. reflexivity.
  - reflexivity.
  - reflexivity.
Defined.

(** X9.  For a passport of a determined stage, time only moves the status
    forward: a later today has the same [next_change] and deadline, a
    report that is "ok" later was "ok" before, and a report that is
    "invalid" stays "invalid". *)
Theorem status_moves_forward birth issue today1 today2 n r1 r2 :
  valid_date today1 -> valid_date today2 -> le today1 today2 = true ->
  current_passport_stage birth issue = Ok (Some n) ->
  compute_status birth issue today1 = Ok r1 ->
  compute_status birth issue today2 = Ok r2 ->
  next_change r1 = next_change r2 /\ deadline r1 = deadline r2 /\
  (status_kind r2 = "ok"%string -> status_kind r1 = "ok"%string) /\
  (status_kind r1 = "invalid"%string -> status_kind r2 = "invalid"%string).
Proof.
  intros V1 V2 Hle Hs H1 H2.
  assert (Hv := stage_values _ _ _ Hs).
  apply compute_status_cases in H1
    as (d20 & d45 & stage & E20 & E45 & Es & _ & N1 & C1).
  apply compute_status_cases in H2
    as (d20' & d45' & stage' & E20' & E45' & Es' & _ & N2 & C2).
  rewrite E20 in E20'. injection E20' as <-.
  rewrite E45 in E45'. injection E45' as <-.
  rewrite Hs in Es, Es'. injection Es as <-. injection Es' as <-.
  assert (N : next_change r1 = next_change r2).
  { rewrite N1, N2.
    destruct Hv as [Hv|[Hv|[Hv|Hv]]]; try discriminate;
      injection Hv as ->; reflexivity. }
  split; [exact N|]. rewrite <- N in C2.
  destruct (next_change r1) as [nc|].
  - destruct C1 as (dl & Ea & D1 & K1), C2 as (dl' & Ea' & D2 & K2).
    rewrite Ea in Ea'. injection Ea' as <-.
    split; [congruence|].
    assert (Vn : valid_date nc).
    { destruct Hv as [Hv|[Hv|[Hv|Hv]]]; try discriminate;
        injection Hv as ->; cbn in N1; try discriminate;
        injection N1 as ->;
        [apply (safe_add_years_Ok _ _ _ E20)
        |apply (safe_add_years_Ok _ _ _ E45)]. }
    pose proof (add_days_Ok _ _ _ Vn Ea) as [Vd _].
    rewrite gt_lt, ge_lt in K1, K2.
    split.
    + intros O2.
      destruct (lt dl today2) eqn:A2; [injection K2 as K; congruence|].
      destruct (lt today2 nc) eqn:B2;
        [|cbn in K2; injection K2 as K; congruence].
      assert (B1 : lt today1 nc = true) by (clear K1 K2; order_prop).
      assert (A1 : lt dl today1 = false) by (clear K1 K2; order_prop).
      rewrite A1, B1 in K1. cbn in K1. now injection K1.
    + intros I1.
      destruct (lt dl today1) eqn:A1.
      * assert (A2 : lt dl today2 = true) by (clear K1 K2; order_prop).
        rewrite A2 in K2. now injection K2.
      * destruct (lt today1 nc); cbn in K1; injection K1 as K; congruence.
  - destruct C1 as (K1 & D1 & _), C2 as (K2 & D2 & _).
    split; [congruence|]. split; congruence.
Qed.

Lemma status_moves_forward_witness :
  exists r1 r2,
    compute_status (mkdate 1970 1 1) (mkdate 1984 1 1) (mkdate 1985 6 1)
    = Ok r1 /\
    compute_status (mkdate 1970 1 1) (mkdate 1984 1 1) (mkdate 2020 1 1)
    = Ok r2 /\
    deadline r1 = deadline r2.
Proof.
  do 2 eexists. split; [reflexivity|]. split; [reflexivity|].
  apply (status_moves_forward
           (mkdate 1970 1 1) (mkdate 1984 1 1)
           (mkdate 1985 6 1) (mkdate 2020 1 1) 14);
    try reflexivity; apply checked_valid; reflexivity.
Defined.

(** X10.  The status is "no_more" exactly when the report has no
    [next_change], and that happens exactly when the stage is 45, or the
    stage is undetermined and today is not before birth plus 45 years. *)
Theorem no_more_iff birth issue today r stage d45 :
  compute_status birth issue today = Ok r ->
  current_passport_stage birth issue = Ok stage ->
  safe_add_years birth 45 = Ok d45 ->
  (status_kind r = "no_more"%string <-> next_change r = None) /\
  (status_kind r = "no_more"%string <->
   stage = Some 45 \/ (stage = None /\ ge today d45 = true)).
Proof.
  intros H Hs E45.
  assert (Hv := stage_values _ _ _ Hs).
  pose proof (compute_status_Ok _ _ _ _ H) as Shape.
  apply compute_status_cases in H
    as (d20 & d45' & stage' & E20 & E45' & Es & _ & N & C).
  rewrite E45 in E45'. injection E45' as <-.
  rewrite Hs in Es. injection Es as <-.
  pose proof (safe_add_years_lt birth 20 45 _ _ ltac:(lia) E20 E45) as L.
  assert (A : status_kind r = "no_more"%string <-> next_change r = None).
  { destruct Shape as [(Hn & _ & K & _) | (nc & dl & _ & _ & Hn & _ & Hc)].
    - tauto.
    - rewrite Hn. split; [|discriminate].
      destruct (gt today dl); [|destruct (ge today nc)];
        injection Hc as K _; rewrite K; discriminate. }
  split; [exact A|]. rewrite A, N.
  destruct Hv as [ -> | [ -> | [ -> | -> ] ] ]; cbn [stage_eqb Z.eqb Pos.eqb].
  - destruct (lt today d20) eqn:L20; [|destruct (lt today d45) eqn:L45].
    + split; [discriminate|]. intros [D|[_ G]]; [discriminate|].
      exfalso. clear C N A. order_prop.
    + split; [discriminate|]. intros [D|[_ G]]; [discriminate|].
      exfalso. clear C N A. order_prop.
    + split; [|reflexivity]. intros _. right. split; trivial.
      rewrite ge_lt, L45. reflexivity.
  - split; [discriminate|]. intros [D|[D _]]; discriminate.
  - split; [discriminate|]. intros [D|[D _]]; discriminate.
  - split; auto.
Qed.

Lemma no_more_iff_witness :
  exists r,
    compute_status (mkdate 1970 1 1) (mkdate 2016 1 1) (mkdate 2020 1 1)
    = Ok r /\
    (status_kind r = "no_more"%string <-> next_change r = None).
Proof.
  eexists. split; [reflexivity|].
  apply (no_more_iff (mkdate 1970 1 1) (mkdate 2016 1 1) (mkdate 2020 1 1)
           _ (Some 45) (mkdate 2015 1 1)); reflexivity.
Defined.

(** X11.  For a passport of a determined stage, the [next_change] of the
    report, when there is one, is birth plus 20 or plus 45 years and lies
    strictly after the issue date. *)
Theorem next_change_after_issue birth issue today n r nc :
  current_passport_stage birth issue = Ok (Some n) ->
  compute_status birth issue today = Ok r ->
  next_change r = Some nc ->
  lt issue nc = true /\
  (safe_add_years birth 20 = Ok nc \/ safe_add_years birth 45 = Ok nc).
Proof.
  intros Hs H Hn.
  apply compute_status_cases in H
    as (d20 & d45 & stage & E20 & E45 & Es & _ & N & _).
  rewrite Hs in Es. injection Es as <-. rewrite Hn in N.
  apply current_passport_stage_Ok in Hs
    as (d14 & d20' & d45' & _ & E20' & E45' & S).
  rewrite E20 in E20'. injection E20' as <-.
  rewrite E45 in E45'. injection E45' as <-.
  rewrite !ge_lt in S.
  destruct (lt issue d45) eqn:A; cbn [negb] in S.
  2:{ injection S as ->. discriminate. }
  destruct (lt issue d20) eqn:B; cbn [negb] in S.
  2:{ injection S as ->. cbn in N. injection N as ->. auto. }
  destruct (lt issue d14); cbn [negb] in S; [discriminate|].
  injection S as ->. cbn in N. injection N as ->. auto.
Qed.

Lemma next_change_after_issue_witness :
  lt (mkdate 2010 1 1) (mkdate 2035 1 1) = true /\
  (safe_add_years (mkdate 1990 1 1) 20 = Ok (mkdate 2035 1 1) \/
   safe_add_years (mkdate 1990 1 1) 45 = Ok (mkdate 2035 1 1)).
Proof.
  apply (next_change_after_issue
           (mkdate 1990 1 1) (mkdate 2010 1 1) (mkdate 2024 6 1) 20
           (mkstatus (classify_passport_stage_text (Some 20))
              (Some (mkdate 2035 1 1)) (Some (mkdate 2035 4 1))
              "ok" (Some 3866)));
    reflexivity.
Defined.

(** *** The "calculate" button *)

Lemma compute_status_below birth issue today :
  valid_date birth -> year birth + 45 < MAXYEAR ->
  returns (compute_status birth issue today).
Proof.
  intros (Hmin & _) Hy. unfold MINYEAR, MAXYEAR in *.
  destruct (current_passport_stage_returns birth issue) as [stage Es];
    [unfold MAXYEAR; lia | unfold MINYEAR; lia |].
  unfold compute_status.
  destruct (safe_add_years_returns birth 20) as [d20 E20];
    [unfold MINYEAR, MAXYEAR; lia|].
  destruct (safe_add_years_returns birth 45) as [d45 E45];
    [unfold MINYEAR, MAXYEAR; lia|].
  rewrite E20, E45, Es. cbn [bind].
  apply safe_add_years_Ok in E20 as (V20 & Y20 & _).
  apply safe_add_years_Ok in E45 as (V45 & Y45 & _).
  assert (K : forall nc, valid_date nc -> year nc < MAXYEAR ->
    returns
      (deadline <- add_days nc 90 ;;
       (let '(status_kind, days_left) :=
          if gt today deadline then ("invalid"%string, None)
          else if ge today nc
               then ("due"%string, Some (sub_days deadline today))
               else ("ok"%string, Some (sub_days nc today)) in
        Ok (mkstatus (classify_passport_stage_text stage) (Some nc)
              (Some deadline) status_kind days_left)))).
  { intros nc Vn Yn. destruct (add_90_returns nc Vn Yn) as [dl ->].
    cbn [bind].
    destruct (gt today dl); [|destruct (ge today nc)];
      eexists; reflexivity. }
  assert (K20 := K d20 V20 ltac:(unfold MAXYEAR; lia)).
  assert (K45 := K d45 V45 ltac:(unfold MAXYEAR; lia)).
  destruct (stage_eqb stage 45); [eexists; reflexivity|].
  destruct (stage_eqb stage 20); [exact K45|].
  destruct (stage_eqb stage 14); [exact K20|].
  destruct (lt today d20); [exact K20|].
  destruct (lt today d45); [exact K45|].
  eexists; reflexivity.
Qed.




(** X12.  For a well-formed birth date with birth year + 45 below 9999
    the button raises nothing: it gives either messages and no report, or
    no message and a report whose stage is 14, 20 or 45. *)
Theorem passport_calculate_returns
  (relativedelta_years : date -> date -> Z) (MAX_BIRTH MAX_ISSUE : date)
  (birth issue today : date) :
  valid_date birth -> year birth + 45 < MAXYEAR ->
  exists errors res,
    passport_calculate relativedelta_years MAX_BIRTH MAX_ISSUE
      birth issue today = Ok (errors, res) /\
    validate_inputs relativedelta_years MAX_BIRTH MAX_ISSUE
      birth issue today = Ok errors /\
    match res with
    | None => errors <> []
    | Some r =>
        errors = [] /\ compute_status birth issue today = Ok r /\
        exists n,
          current_passport_stage birth issue = Ok (Some n) /\
          (n = 14 \/ n = 20 \/ n = 45) /\
          stage_label r = classify_passport_stage_text (Some n)
    end.
Proof.
  intros V Hy. pose proof V as (Hmin & _). unfold MINYEAR, MAXYEAR in *.
  destruct (safe_add_years_returns birth 14) as [d14 E14];
    [unfold MINYEAR, MAXYEAR; lia|].
  pose proof (validate_inputs_messages relativedelta_years MAX_BIRTH
                MAX_ISSUE birth issue today d14 E14) as Ev.
  unfold passport_calculate. rewrite Ev. cbn [bind].
  destruct (messages _) as [|e errs] eqn:M.
  - destruct (current_passport_stage_returns birth issue) as [stage Es];
      [unfold MAXYEAR; lia | unfold MINYEAR; lia |].
    assert (R : returns (compute_status birth issue today))
      by (apply compute_status_below; trivial; unfold MAXYEAR; lia).
    destruct R as [r Er]. exists [], (Some r).
    split; [rewrite Er; reflexivity|]. split; [reflexivity|].
    split; [reflexivity|]. split; [exact Er|].
    destruct (validated_stage_shape relativedelta_years MAX_BIRTH MAX_ISSUE
                birth issue today stage Ev Es) as [n [-> Hn]].
    exists n. split; [exact Es|]. split; [exact Hn|].
    apply compute_status_cases in Er
      as (_ & _ & stage' & _ & _ & Es' & L & _).
    rewrite Es in Es'. injection Es' as <-. exact L.
  - exists (e :: errs), None. split; [reflexivity|]. split; [reflexivity|].
    discriminate.
Qed.

Lemma passport_calculate_returns_witness :
  exists errors res,
    passport_calculate elapsed_years (mkdate 2026 11 3) (mkdate 2026 11 3)
      (mkdate 2000 2 29) (mkdate 2014 3 10) (mkdate 2026 11 3)
    = Ok (errors, res) /\ res <> None.
Proof.
  destruct (passport_calculate_returns elapsed_years
              (mkdate 2026 11 3) (mkdate 2026 11 3)
              (mkdate 2000 2 29) (mkdate 2014 3 10) (mkdate 2026 11 3))
    as (errors & res & E & _).
  - apply checked_valid. reflexivity.
  - reflexivity.
  - exists errors, res. split; [exact E|].
    vm_compute in E. injection E as <- <-. discriminate.
Defined.

End PassportMore.

(** ** Compliance template tool: further properties *)

Import ComplianceFacts.

Module ComplianceMore.

Import Compliance.

(** *** More on [sort_by_priority] *)

(** X13.  [sort_by_priority] keeps exactly the known categories of the
    request, each once: a key is in the result when it is in the request
    and in [PRIORITY]; unknown keys are dropped without an error; the
    result has no repetition and at most three elements, and sorting it
    again changes nothing. *)
Theorem sort_by_priority_known_once keys :
  (forall k, In k (sort_by_priority keys) <-> In k PRIORITY /\ In k keys) /\
  NoDup (sort_by_priority keys) /\
  (List.length (sort_by_priority keys) <= 3)%nat /\
  sort_by_priority (sort_by_priority keys) = sort_by_priority keys.
Proof.
  split; [|split; [|split]].
  - intros k. unfold sort_by_priority. rewrite filter_In, contains_In.
    tauto.
  - apply NoDup_filter. unfold PRIORITY.
    repeat constructor; cbn [In]; intros H; decompose [or] H;
      discriminate || assumption.
  - unfold sort_by_priority, PRIORITY. cbn [filter].
    destruct (contains keys "SOF"), (contains keys "ID"),
      (contains keys "UB"); cbn; lia.
  - unfold sort_by_priority, PRIORITY. cbn [filter].
    destruct (contains keys "SOF"), (contains keys "ID"),
      (contains keys "UB"); reflexivity.
Qed.

Lemma sort_by_priority_known_once_witness :
  In "ID"%string (sort_by_priority ["X"; "ID"; "ID"]%string).
Proof.
  apply (proj1 (sort_by_priority_known_once ["X"; "ID"; "ID"]%string)).
  simpl. auto.
Defined.

(** *** Missing keys *)

Lemma lookup_missing {V : Type} (d : dict V) k :
  ~ In k (keys d) -> lookup d k = None.
Proof.
  unfold keys. induction d as [|[k' v] d IH]; cbn; trivial.
  intros H. destruct (String.eqb_spec k k') as [->|N].
  - destruct H. auto.
  - apply IH. tauto.
Qed.

Lemma segment_missing lang r :
  ~ In lang languages -> In r PRIORITY ->
  exists by_lang,
    getitem blocks r = Ok by_lang /\ getitem by_lang lang = Raise KeyError.
Proof.
  intros Hl. unfold PRIORITY; cbn [In].
  intros [<- | [<- | [<- | []]]]; eexists; (split; [reflexivity|]);
    unfold getitem; rewrite lookup_missing; trivial.
Qed.

Lemma render_loop_missing lang i r ordered parts :
  ~ In lang languages -> In r PRIORITY ->
  render_loop lang i (r :: ordered) parts = Raise KeyError.
Proof.
  intros Hl Hr. destruct (segment_missing lang r Hl Hr) as (b & E1 & E2).
  cbn [render_loop]. rewrite E1; cbn [bind]. now rewrite E2.
Qed.

Lemma render_middle_known lang reqs :
  In lang languages -> returns (render_middle_adaptive lang reqs).
Proof.
  intros Hl. unfold render_middle_adaptive, returns.
  destruct (render_loop_blocks lang Hl (sort_by_priority reqs) 0 []
              (sort_by_priority_incl reqs)) as (bs & Hbs & _).
  change 0 with (Z.of_nat 0). rewrite Hbs. cbn [bind]. eauto.
Qed.

Lemma render_middle_unknown lang reqs :
  ~ In lang languages -> sort_by_priority reqs <> [] ->
  render_middle_adaptive lang reqs = Raise KeyError.
Proof.
  intros Hl Hne. unfold render_middle_adaptive.
  pose proof (sort_by_priority_incl reqs) as Hin.
  destruct (sort_by_priority reqs) as [|r ordered]; [congruence|].
  rewrite render_loop_missing; trivial. apply Hin. now left.
Qed.

Lemma render_middle_nothing_known lang reqs :
  sort_by_priority reqs = [] ->
  render_middle_adaptive lang reqs = Ok EmptyString.
Proof.
  intros E. unfold render_middle_adaptive. rewrite E. reflexivity.
Qed.

(** X14.  [render_middle_adaptive] raises only for a language that is not
    in the tables, and then only if the request holds a known category:
    [KeyError].  With no known category in the request it returns the
    empty text, whatever the language. *)
Theorem render_middle_adaptive_errors lang reqs :
  (In lang languages -> returns (render_middle_adaptive lang reqs)) /\
  (~ In lang languages -> sort_by_priority reqs <> [] ->
   render_middle_adaptive lang reqs = Raise KeyError) /\
  (sort_by_priority reqs = [] ->
   render_middle_adaptive lang reqs = Ok EmptyString).
Proof.
  split; [|split].
  - apply render_middle_known.
  - apply render_middle_unknown.
  - apply render_middle_nothing_known.
Qed.

Lemma render_middle_adaptive_errors_witness :
  render_middle_adaptive "German" ["UB"; "X"]%string = Raise KeyError.
Proof.
  apply (proj1 (proj2 (render_middle_adaptive_errors
                         "German" ["UB"; "X"]%string))).
  - simpl. intros [H|[H|[]]]; discriminate.
  - discriminate.
Defined.

Lemma compose_known lang reqs :
  In lang languages -> returns (compose lang reqs).
Proof.
  intros Hl. unfold compose.
  destruct (render_middle_known lang reqs Hl) as [m ->]. cbn [bind].
  revert Hl. unfold languages; cbn [keys map fst intro_texts In].
  intros [<- | [<- | []]]; eexists; reflexivity.
Qed.

Lemma compose_unknown lang reqs :
  ~ In lang languages -> compose lang reqs = Raise KeyError.
Proof.
  intros Hl. unfold compose.
  destruct (list_eq_dec string_dec (sort_by_priority reqs) []) as [E|N].
  - rewrite (render_middle_nothing_known lang reqs E).
    cbn [bind]. unfold getitem at 1.
    rewrite lookup_missing; trivial.
  - now rewrite (render_middle_unknown lang reqs Hl N).
Qed.


(** X15.  [compose] returns exactly for the languages of the tables and
    raises [KeyError] for any other; the "Generate text" button returns
    exactly when the selection is empty (the placeholder, for any
    language) or the language is in the tables. *)
Theorem compose_returns_iff lang reqs :
  (returns (compose lang reqs) <-> In lang languages) /\
  (~ In lang languages -> compose lang reqs = Raise KeyError) /\
  (returns (generate_text lang reqs) <-> reqs = [] \/ In lang languages).
Proof.
  assert (C : returns (compose lang reqs) <-> In lang languages).
  { split; [|apply compose_known].
    intros [t E]. destruct (in_dec string_dec lang languages) as [|N]; trivial.
    rewrite compose_unknown in E by exact N. discriminate. }
  split; [exact C|]. split; [apply compose_unknown|].
  destruct reqs as [|r reqs]; cbn [generate_text].
  - split; [auto|]. intros _. eexists; reflexivity.
  - rewrite C. split; [auto|]. intros [H|H]; [discriminate | exact H].
Qed.

Lemma compose_returns_iff_witness :
  returns (compose "Russian" ["SOF"; "UB"]%string).
Proof.
  apply (proj1 (compose_returns_iff "Russian" ["SOF"; "UB"]%string)).
  simpl. auto.
Defined.

(** *** Trimming *)

Lemma first_char_lstrip s c :
  first_char (lstrip s) = Some c -> isspace c = false.
Proof.
  induction s as [|a s IH]; cbn [lstrip]; [discriminate|].
  destruct (isspace a) eqn:A; trivial.
  cbn. intros [= <-]. exact A.
Qed.

Lemma first_char_rstrip s c :
  first_char (rstrip s) = Some c -> first_char s = Some c.
Proof.
  destruct s as [|a s]; cbn [rstrip]; trivial.
  destruct (rstrip s); [destruct (isspace a)|]; cbn; trivial. discriminate.
Qed.

Lemma last_char_rstrip s c :
  last_char (rstrip s) = Some c -> isspace c = false.
Proof.
  induction s as [|a s IH]; cbn [rstrip]; [discriminate|].
  destruct (rstrip s) as [|b t] eqn:R.
  - destruct (isspace a) eqn:A; cbn; [discriminate|]. now intros [= <-].
  - cbn [last_char]. exact IH.
Qed.

Lemma strip_trimmed s :
  (forall c, first_char (strip s) = Some c -> isspace c = false) /\
  (forall c, last_char (strip s) = Some c -> isspace c = false).
Proof.
  unfold strip. split; intros c H.
  - apply first_char_rstrip in H. now apply first_char_lstrip in H.
  - now apply last_char_rstrip in H.
Qed.

(** X16.  A composed text neither starts nor ends with white space. *)
Theorem compose_trimmed lang reqs t :
  compose lang reqs = Ok t ->
  (forall c, first_char t = Some c -> isspace c = false) /\
  (forall c, last_char t = Some c -> isspace c = false).
Proof.
  unfold compose.
  destruct (render_middle_adaptive lang reqs); [|discriminate].
  destruct (getitem intro_texts lang); [|discriminate].
  destruct (getitem closing_texts lang); [|discriminate].
  cbn [bind]. intros [= <-]. apply strip_trimmed.
Qed.

Lemma compose_trimmed_witness :
  exists t, compose "English" ["ID"]%string = Ok t /\
            forall c, last_char t = Some c -> isspace c = false.
Proof.
  eexists. split; [reflexivity|].
  apply (compose_trimmed "English" ["ID"]%string). reflexivity.
Defined.


(** *** More on [js_escape] *)

Local Open Scope string_scope.

Lemma js_escape_is_scan s : js_escape s = escape_scan s.
Proof. now rewrite js_escape_maps, escape_maps_scan. Qed.

Lemma escape_scan_plain c s :
  plain_char c = true -> escape_scan (String c s) = String c (escape_scan s).
Proof.
  unfold plain_char. intros H. apply negb_true_iff in H.
  repeat (apply orb_false_iff in H as [H ?]).
  cbn [escape_scan].
  repeat match goal with E : Ascii.eqb _ _ = false |- _ =>
    rewrite E; clear E end.
  reflexivity.
Qed.

(** X17.  A text without backslash, backtick, "$", carriage return and
    newline is left as it is by [js_escape]. *)
Theorem js_escape_plain s :
  all_chars plain_char s = true -> js_escape s = s.
Proof.
  rewrite js_escape_is_scan.
  induction s as [|c s IH]; cbn [all_chars]; trivial.
  intros H. apply andb_true_iff in H as [Hc Hs].
  rewrite escape_scan_plain by exact Hc. now rewrite IH.
Qed.

Lemma js_escape_plain_witness :
  js_escape "Best regards, {name}" = "Best regards, {name}".
Proof. apply (js_escape_plain "Best regards, {name}"). reflexivity. Defined.

Lemma append_empty_r (s : string) : s ++ EmptyString = s.
Proof. induction s; cbn; congruence. Qed.

Lemma last_char_cons (c : ascii) (s : string) :
  last_char (String c s) =
  match s with EmptyString => Some c | _ => last_char s end.
Proof. destruct s; reflexivity. Qed.

(** The shape of [escape_scan] on a first character, by the case it
    falls in. *)
Lemma escape_scan_dollar_brace s :
  escape_scan (String "$" (String "{" s)) =
  backslash ++ "${" ++ escape_scan s.
Proof. reflexivity. Qed.

Lemma escape_scan_dollar_other s :
  first_char s <> Some "{"%char ->
  escape_scan (String "$" s) = String "$" (escape_scan s).
Proof.
  intros H. cbn [escape_scan Ascii.eqb Bool.eqb].
  destruct s as [|c s]; trivial.
  destruct (Ascii.eqb_spec c "{") as [->|N]; trivial.
  destruct H. reflexivity.
Qed.

Lemma escape_scan_not_dollar c :
  c <> "$"%char ->
  exists u, forall t, escape_scan (String c t) = u ++ escape_scan t.
Proof.
  intros N. apply Ascii.eqb_neq in N.
  destruct (Ascii.eqb c "092") eqn:E1.
  { exists (backslash ++ backslash). intros t. cbn [escape_scan].
    now rewrite E1. }
  destruct (Ascii.eqb c "096") eqn:E2.
  { exists (backslash ++ backtick). intros t. cbn [escape_scan].
    now rewrite E1, E2. }
  destruct (Ascii.eqb c "013") eqn:E3.
  { exists EmptyString. intros t. cbn [escape_scan].
    now rewrite E1, E2, N, E3. }
  destruct (Ascii.eqb c "010") eqn:E4.
  { exists (backslash ++ "n"). intros t. cbn [escape_scan].
    now rewrite E1, E2, N, E3, E4. }
  exists (String c EmptyString). intros t. cbn [escape_scan].
  now rewrite E1, E2, N, E3, E4.
Qed.

Lemma escape_scan_app a b :
  ~ (last_char a = Some "$"%char /\ first_char b = Some "{"%char) ->
  escape_scan (a ++ b) = escape_scan a ++ escape_scan b.
Proof.
  revert b.
  enough (H : (forall b,
                 ~ (last_char a = Some "$"%char /\
                    first_char b = Some "{"%char) ->
                 escape_scan (a ++ b) = escape_scan a ++ escape_scan b) /\
              (forall c b,
                 ~ (last_char (String c a) = Some "$"%char /\
                    first_char b = Some "{"%char) ->
                 escape_scan (String c a ++ b) =
                 escape_scan (String c a) ++ escape_scan b))
    by apply H.
  induction a as [|c' a [IH1 IH2]].
  - split; [reflexivity|]. intros c b Hc. cbn [append].
    destruct (ascii_dec c "$") as [->|N].
    + rewrite escape_scan_dollar_other; [reflexivity|].
      intros F. apply Hc. split; [reflexivity | exact F].
    + destruct (escape_scan_not_dollar c N) as [u Hu].
      rewrite (Hu b), (Hu EmptyString). cbn [escape_scan].
      now rewrite append_empty_r.
  - split; [exact (IH2 c')|]. intros c b Hc.
    rewrite last_char_cons in Hc.
    change (String c (String c' a) ++ b) with (String c (String c' a ++ b)).
    destruct (ascii_dec c "$") as [->|N].
    + destruct (ascii_dec c' "{") as [->|N'].
      * cbn [append]. rewrite !escape_scan_dollar_brace.
        rewrite IH1.
        -- unfold backslash. cbn [append]. reflexivity.
        -- intros [L F]. apply Hc. split; [|exact F].
           rewrite last_char_cons. destruct a; [discriminate | exact L].
      * rewrite !escape_scan_dollar_other.
        -- cbn [append]. f_equal. apply IH2. exact Hc.
        -- cbn. congruence.
        -- cbn. congruence.
    + destruct (escape_scan_not_dollar c N) as [u Hu].
      rewrite !Hu, (IH2 c' b Hc). symmetry. apply append_assoc.
Qed.

(** X18.  [js_escape] works piece by piece: the escape of a
    concatenation is the concatenation of the escapes, unless the cut
    falls between a "$" and a "{". *)
Theorem js_escape_app a b :
  ~ (last_char a = Some "$"%char /\ first_char b = Some "{"%char) ->
  js_escape (a ++ b) = js_escape a ++ js_escape b.
Proof. intros H. rewrite !js_escape_is_scan. now apply escape_scan_app. Qed.

Lemma js_escape_app_witness :
  js_escape ("a`" ++ "${b}") = js_escape "a`" ++ js_escape "${b}".
Proof.
  apply (js_escape_app "a`" "${b}"). intros [H _]. discriminate.
Defined.


Lemma well_escaped_scan s : well_escaped (escape_scan s) = true.
Proof.
  enough (H : well_escaped (escape_scan s) = true /\
              forall c, well_escaped (escape_scan (String c s)) = true)
    by apply H.
  assert (Step : forall c t,
    well_escaped (escape_scan t) = true ->
    first_char t <> Some "{"%char \/ c <> "$"%char ->
    well_escaped (escape_scan (String c t)) = true).
  { intros c t IH Hc. cbn [escape_scan].
    destruct (Ascii.eqb_spec c "092") as [->|N1]; [exact IH|].
    destruct (Ascii.eqb_spec c "096") as [->|N2]; [exact IH|].
    destruct (Ascii.eqb_spec c "$") as [->|N3].
    { destruct t as [|c' t']; [reflexivity|].
      destruct (Ascii.eqb_spec c' "{") as [->|N4].
      - destruct Hc as [Hc|Hc]; now destruct Hc.
      - exact IH. }
    destruct (Ascii.eqb_spec c "013") as [->|N4]; [exact IH|].
    destruct (Ascii.eqb_spec c "010") as [->|N5]; [exact IH|].
    cbn [well_escaped].
    apply Ascii.eqb_neq in N1, N2, N4, N5. now rewrite N1, N2, N4, N5. }
  induction s as [|c' s [IH1 IH2]].
  - split; [reflexivity|]. intros c. apply Step; [reflexivity|].
    left. discriminate.
  - split; [apply IH2|]. intros c.
    destruct (ascii_dec c "$") as [->|N]; [|apply Step; auto].
    destruct (ascii_dec c' "{") as [->|N'].
    + rewrite escape_scan_dollar_brace. exact IH1.
    + apply Step; [apply IH2|]. left. cbn. congruence.
Qed.

(** X19.  The result of [js_escape] always reads as escaped text: from
    the left it is made of the escapes backslash-backslash,
    backslash-backtick, backslash-"$" and backslash-n and of single
    characters that are no backslash, backtick, carriage return or
    newline; no backtick stands unescaped and no backslash is left
    alone. *)
Theorem js_escape_well_escaped s : well_escaped (js_escape s) = true.
Proof. rewrite js_escape_is_scan. apply well_escaped_scan. Qed.

(** X20.  A carriage return between "$" and "{" defeats the escape of
    the pair: it is dropped only after the pair was looked for, so the
    result holds "${" with no backslash in front, whatever stands around
    it. *)
Theorem js_escape_dollar_cr_brace_anywhere a b :
  js_escape (a ++ "$" ++ cr ++ "{" ++ b) =
  js_escape a ++ "${" ++ js_escape b.
Proof.
  rewrite !js_escape_is_scan. rewrite escape_scan_app.
  - reflexivity.
  - intros [_ F]. discriminate.
Qed.

End ComplianceMore.
